(** * eToro investor scraper: the page-to-record extraction pipeline

    A shallow embedding of the two scraper scripts of the repository,

      - [etoro_advanced_scraper.py]: class [EtoroAdvancedScraper], which
        extracts fields with regular expressions over the rendered text;
      - "eToro Investor Profile Scraper.py": class [EtoroInvestorScraper],
        which extracts fields with CSS/XPath lookups,

    and the properties of their extraction passes.

    Conventions of the embedding.

      - A Python [str] is a [string]; its characters are the code points
        0..255 (Latin-1), and the character classes of [re] ([\d], [\s],
        [\w], [\b]) and [str.lower] are the restrictions of Python's
        Unicode tables to that range.
      - [re.search] and [re.findall] are a backtracking matcher over the
        abstract syntax of the patterns: leftmost match, greedy
        quantifiers, alternatives tried left to right.
      - The browser (Selenium's driver) and the wall clock are external:
        they are an interface, [Session], whose queries may raise.
      - [print] writes to the console only and is left out. *)

From stdpp Require Import gmap strings list fin_maps.
From Stdlib Require Import Ascii String.

Open Scope string_scope.
Open Scope list_scope.

(** ** Characters *)

Module Chars.

Definition code (c : ascii) : nat := nat_of_ascii c.

Definition between (lo hi : nat) (c : ascii) : bool :=
  (lo <=? code c)%nat && (code c <=? hi)%nat.

(** [\d]: the decimal digits; Latin-1 has no digit besides 0-9. *)
Definition is_digit (c : ascii) : bool := between 48 57 c.

(** [[A-Z]]. *)
Definition is_upper_AZ (c : ascii) : bool := between 65 90 c.

(** [\s]: [str.isspace] on 0..255, tab to carriage return, the four
    separators 0x1c-0x1f, space, NEL and the no-break space. *)
Definition is_space (c : ascii) : bool :=
  between 9 13 c || between 28 32 c || (code c =? 133)%nat || (code c =? 160)%nat.

(** [\w]: alphanumeric (in the sense of [str.isalnum]) or underscore. *)
Definition is_word (c : ascii) : bool :=
  between 48 57 c || between 65 90 c || between 97 122 c || (code c =? 95)%nat
  || (code c =? 170)%nat || (code c =? 181)%nat || (code c =? 186)%nat
  || between 178 179 c || (code c =? 185)%nat || between 188 190 c
  || between 192 214 c || between 216 246 c || between 248 255 c.

(** One of the characters of [set], as in [[Cc]] or [[-+]]. *)
Fixpoint one_of (set : string) (c : ascii) : bool :=
  match set with
  | EmptyString => false
  | String a set' => Ascii.eqb a c || one_of set' c
  end.

(** [str.lower] on one character: A-Z and the accented capitals
    0xC0-0xDE (but the multiplication sign 0xD7) move up by 32. *)
Definition lower_char (c : ascii) : ascii :=
  if between 65 90 c || (between 192 222 c && negb (code c =? 215)%nat)
  then ascii_of_nat (code c + 32) else c.

(** All the characters, and whether every character of the class [p] is
    one of the class [q]. *)
Definition all_chars : list ascii := map ascii_of_nat (seq 0 256).

Definition subclass (p q : ascii -> bool) : bool :=
  forallb (fun c => implb (p c) (q c)) all_chars.

End Chars.

(** ** Regular expressions: [re.search] and [re.findall] *)

Module Re.
Import Chars.

Inductive regex : Type :=
  | Chr (p : ascii -> bool)            (* a literal, a class or a set *)
  | Eps
  | Seq (r1 r2 : regex)
  | Alt (r1 r2 : regex)                (* r1|r2 *)
  | Star (r : regex)                   (* r*, greedy *)
  | Rep (r : regex) (lo hi : nat)      (* r{lo,hi}, greedy *)
  | Group (n : nat) (r : regex)        (* the n-th capturing group *)
  | WordB.                             (* \b *)

(** r+ *)
Definition Plus (r : regex) : regex := Seq r (Star r).
(** r?, greedy: r is tried first *)
Definition Opt (r : regex) : regex := Alt r Eps.

Fixpoint Lit (s : string) : regex :=
  match s with
  | EmptyString => Eps
  | String c s' => Seq (Chr (Ascii.eqb c)) (Lit s')
  end.

Fixpoint seqs (rs : list regex) : regex :=
  match rs with
  | [] => Eps
  | [r] => r
  | r :: rs' => Seq r (seqs rs')
  end.

(** The matcher's position: the character before it, the text after it,
    and the groups captured so far (latest first). *)
Record mstate : Type := MState {
  prev : option ascii;
  rest : list ascii;
  caps : list (nat * string)
}.

Definition kont : Type := mstate -> option mstate.

Definition advance (c : ascii) (s' : list ascii) (st : mstate) : mstate :=
  MState (Some c) s' (caps st).

(** The text between two positions of one run of the matcher. *)
Definition consumed (st st1 : mstate) : string :=
  string_of_list_ascii (firstn (List.length (rest st) - List.length (rest st1)) (rest st)).

Definition set_cap (n : nat) (w : string) (st : mstate) : mstate :=
  MState (prev st) (rest st) ((n, w) :: caps st).

Fixpoint lookup_cap (n : nat) (cs : list (nat * string)) : option string :=
  match cs with
  | [] => None
  | (i, w) :: cs' => if (i =? n)%nat then Some w else lookup_cap n cs'
  end.

(** [match.group(n)] *)
Definition group (n : nat) (st : mstate) : option string := lookup_cap n (caps st).

Definition is_word_opt (o : option ascii) : bool :=
  match o with Some c => is_word c | None => false end.

(** r*: as many iterations as possible first, then fewer; an iteration
    that consumes nothing ends the loop. [fuel] is the length of the text
    left, which no sequence of consuming iterations exceeds. *)
Fixpoint star_loop (step : mstate -> kont -> option mstate) (fuel : nat)
    (st : mstate) (k : kont) : option mstate :=
  match fuel with
  | O => k st
  | S f =>
      match step st (fun st' =>
              if (List.length (rest st') <? List.length (rest st))%nat
              then star_loop step f st' k else None) with
      | Some res => Some res
      | None => k st
      end
  end.

(** The optional iterations of r{lo,hi}, after the [lo] mandatory ones. *)
Fixpoint rep_may (step : mstate -> kont -> option mstate) (may : nat)
    (st : mstate) (k : kont) : option mstate :=
  match may with
  | O => k st
  | S j =>
      match step st (fun st' => rep_may step j st' k) with
      | Some res => Some res
      | None => k st
      end
  end.

Fixpoint rep_must (step : mstate -> kont -> option mstate) (must may : nat)
    (st : mstate) (k : kont) : option mstate :=
  match must with
  | O => rep_may step may st k
  | S i => step st (fun st' => rep_must step i may st' k)
  end.

(** Match [r] at the position [st], then continue with [k]; [None] makes
    the matcher backtrack into the latest choice. *)
Fixpoint m (r : regex) (st : mstate) (k : kont) : option mstate :=
  match r with
  | Chr p =>
      match rest st with
      | c :: s' => if p c then k (advance c s' st) else None
      | [] => None
      end
  | Eps => k st
  | Seq r1 r2 => m r1 st (fun st1 => m r2 st1 k)
  | Alt r1 r2 =>
      match m r1 st k with
      | Some res => Some res
      | None => m r2 st k
      end
  | Star r1 => star_loop (m r1) (List.length (rest st)) st k
  | Rep r1 lo hi => rep_must (m r1) lo (hi - lo) st k
  | Group n r1 => m r1 st (fun st1 => k (set_cap n (consumed st st1) st1))
  | WordB =>
      if xorb (is_word_opt (prev st)) (is_word_opt (head (rest st)))
      then k st else None
  end.

(** The position after the longest run of characters of the class [p]. *)
Fixpoint skip_while (p : ascii -> bool) (pv : option ascii) (s : list ascii)
    : option ascii * list ascii :=
  match s with
  | c :: s' => if p c then skip_while p (Some c) s' else (pv, s)
  | [] => (pv, [])
  end.

Definition skip (p : ascii -> bool) (st : mstate) : mstate :=
  MState (fst (skip_while p (prev st) (rest st))) (snd (skip_while p (prev st) (rest st)))
         (caps st).

Definition starts_with_class (p : ascii -> bool) (s : list ascii) : bool :=
  match s with c :: _ => p c | [] => false end.

(** The position after at most [n] characters of the class [p]. *)
Fixpoint skip_upto (n : nat) (p : ascii -> bool) (st : mstate) : mstate :=
  match n, rest st with
  | S n', c :: s' => if p c then skip_upto n' p (advance c s' st) else st
  | _, _ => st
  end.

(** The character before the position, after reading [w]. *)
Definition last_opt (pv : option ascii) (w : list ascii) : option ascii :=
  fold_left (fun _ c => Some c) w pv.

(** A match of [r] that starts exactly here; group 0 is the whole match. *)
Definition match_here (r : regex) (pv : option ascii) (s : list ascii) : option mstate :=
  m (Group 0 r) (MState pv s []) Some.

(** The leftmost match at or after the current position. *)
Fixpoint search_from (r : regex) (pv : option ascii) (s : list ascii) : option mstate :=
  match match_here r pv s with
  | Some st => Some st
  | None =>
      match s with
      | [] => None
      | c :: s' => search_from r (Some c) s'
      end
  end.

(** No match of [r] starts inside the prefix [p] of the text [p ++ s]. *)
Fixpoint no_match_before (r : regex) (pv : option ascii) (p s : list ascii) : bool :=
  match p with
  | [] => true
  | c :: p' =>
      match match_here r pv (p ++ s) with
      | Some _ => false
      | None => no_match_before r (Some c) p' s
      end
  end.

(** [re.search(r, text)] *)
Definition search (r : regex) (text : string) : option mstate :=
  search_from r None (list_ascii_of_string text).

Definition group_or_empty (n : nat) (st : mstate) : string :=
  match group n st with Some w => w | None => "" end.

(** The successive non-overlapping matches, left to right. After a match
    the scan resumes where the match ended; after an empty match it
    resumes one character further (none of the patterns below matches the
    empty string). Every round leaves less text, so that the length of
    the text and one more is fuel enough. *)
Fixpoint finditer_from (fuel : nat) (r : regex) (pv : option ascii) (s : list ascii)
    : list mstate :=
  match fuel with
  | O => []
  | S f =>
      match search_from r pv s with
      | None => []
      | Some st =>
          st :: match group_or_empty 0 st with
                | String _ _ => finditer_from f r (prev st) (rest st)
                | EmptyString =>
                    match rest st with
                    | [] => []
                    | c :: s' => finditer_from f r (Some c) s'
                    end
                end
      end
  end.

Definition finditer (r : regex) (text : string) : list mstate :=
  let s := list_ascii_of_string text in
  finditer_from (S (List.length s)) r None s.

(** *** What a match is

    [Matches r st w st1]: from the position [st] the expression [r] can
    consume the characters [w] and arrive at [st1]. This is the
    declarative reading of the syntax, without the order in which the
    matcher tries the alternatives. *)

Fixpoint Iter (R : mstate -> list ascii -> mstate -> Prop) (n : nat)
    (st : mstate) (w : list ascii) (st1 : mstate) : Prop :=
  match n with
  | O => w = [] /\ st1 = st
  | S n' => exists w1 w2 st', w = w1 ++ w2 /\ R st w1 st' /\ Iter R n' st' w2 st1
  end.

Fixpoint Matches (r : regex) (st : mstate) (w : list ascii) (st1 : mstate) : Prop :=
  match r with
  | Chr p =>
      exists c s', rest st = c :: s' /\ p c = true /\ w = [c] /\ st1 = advance c s' st
  | Eps => w = [] /\ st1 = st
  | Seq r1 r2 =>
      exists w1 w2 st', w = w1 ++ w2 /\ Matches r1 st w1 st' /\ Matches r2 st' w2 st1
  | Alt r1 r2 => Matches r1 st w st1 \/ Matches r2 st w st1
  | Star r1 => exists n, Iter (Matches r1) n st w st1
  | Rep r1 lo hi => exists n, lo <= n <= lo + (hi - lo) /\ Iter (Matches r1) n st w st1
  | Group n r1 =>
      exists st', Matches r1 st w st' /\ st1 = set_cap n (string_of_list_ascii w) st'
  | WordB =>
      w = [] /\ st1 = st /\
      xorb (is_word_opt (prev st)) (is_word_opt (head (rest st))) = true
  end.

(** The matches that [finditer] lists follow one another in the text:
    each starts somewhere in what the one before it left. *)
Inductive Chain (r : regex) : list ascii -> list mstate -> Prop :=
  | Chain_nil s : Chain r s []
  | Chain_cons pre pv s' st gap s2 sts :
      match_here r pv s' = Some st -> rest st = gap ++ s2 -> Chain r s2 sts ->
      Chain r (pre ++ s') (st :: sts).

(** A continuation that accepts every position, as the end of a pattern
    does. *)
Definition total (k : kont) : Prop := forall st, is_Some (k st).

(** [re.findall(r, text)] for a pattern with one group: the list of the
    texts of group 1. *)
Definition findall1 (r : regex) (text : string) : list string :=
  map (group_or_empty 1) (finditer r text).

(** [re.findall(r, text)] for a pattern with two groups: the list of the
    pairs (group 1, group 2). *)
Definition findall2 (r : regex) (text : string) : list (string * string) :=
  map (fun st => (group_or_empty 1 st, group_or_empty 2 st)) (finditer r text).

(** The capturing groups of an expression, with what each one holds. *)
Fixpoint groups (r : regex) : list (nat * regex) :=
  match r with
  | Group n r1 => (n, r1) :: groups r1
  | Seq r1 r2 | Alt r1 r2 => groups r1 ++ groups r2
  | Star r1 | Rep r1 _ _ => groups r1
  | Chr _ | Eps | WordB => []
  end.

(** A check on the syntax: whatever [r] matches holds a character of the
    class [q]. *)
Fixpoint always_has (q : ascii -> bool) (r : regex) : bool :=
  match r with
  | Chr p => subclass p q
  | Seq r1 r2 => always_has q r1 || always_has q r2
  | Alt r1 r2 => always_has q r1 && always_has q r2
  | Rep r1 lo _ => (1 <=? lo)%nat && always_has q r1
  | Group _ r1 => always_has q r1
  | Star _ | Eps | WordB => false
  end.

(** The expression has one group, group 1, and what the group matches
    holds a character of the class [q]. *)
Definition group1_always_has (q : ascii -> bool) (r : regex) : bool :=
  match groups r with
  | [(1, g)] => always_has q g
  | _ => false
  end.

End Re.

(** ** Signed decimal tokens, as the specification words them

    The specification of [extract_number] reads: strip the thousands
    separators, locate the first signed decimal token, parse it. The
    definitions of this module follow these words and not the pattern;
    they are compared with the pattern of the source further down. *)

Module NumberSpec.
Import Chars.

(** The longest run of characters of a class at the head of [s], and the
    text after it. *)
Fixpoint run (p : ascii -> bool) (s : list ascii) : list ascii :=
  match s with
  | c :: s' => if p c then c :: run p s' else []
  | [] => []
  end.

Fixpoint after_run (p : ascii -> bool) (s : list ascii) : list ascii :=
  match s with
  | c :: s' => if p c then after_run p s' else s
  | [] => []
  end.

Definition is_sign (c : ascii) : bool := one_of "-+" c.

(** The signed decimal token at the head of [s] and the text after it: an
    optional sign, the digits of the integer part, and, when a point and
    a digit follow them, the point and the digits of the fraction. A
    token has a digit; a point that no digit follows is not part of it. *)
Definition signed_decimal_at (s : list ascii) : option (list ascii * list ascii) :=
  let '(sg, s1) :=
    match s with
    | c :: s' => if is_sign c then ([c], s') else ([], s)
    | [] => ([], [])
    end in
  let int_part := run is_digit s1 in
  let s2 := after_run is_digit s1 in
  let integer :=
    match int_part with
    | [] => None
    | _ :: _ => Some (sg ++ int_part, s2)
    end in
  match s2 with
  | c :: s3 =>
      if Ascii.eqb c "." && Re.starts_with_class is_digit s3
      then Some (sg ++ int_part ++ c :: run is_digit s3, after_run is_digit s3)
      else integer
  | [] => integer
  end.

(** The first signed decimal token of [s], scanning from the left. *)
Fixpoint first_signed_decimal (s : list ascii) : option (list ascii) :=
  match signed_decimal_at s with
  | Some (t, _) => Some t
  | None =>
      match s with
      | [] => None
      | _ :: s' => first_signed_decimal s'
      end
  end.

(** The whole of [s] is one signed decimal token. *)
Definition is_signed_decimal (s : string) : bool :=
  match signed_decimal_at (list_ascii_of_string s) with
  | Some (_, []) => true
  | _ => false
  end.

(** [s] has no digit. *)
Definition no_digit (s : string) : Prop :=
  Forall (fun c => is_digit c = false) (list_ascii_of_string s).

End NumberSpec.

(** ** Trades in a text, as the specification words them

    The specification of the open-trades extraction reads: pair action
    and symbol tokens positionally. The definitions of this module
    follow these words and not the pattern; they are compared with the
    pattern of the source further down. *)

Module TradeSpec.
Import Chars NumberSpec.

(** At most [n] characters of the run of a class at the head of [s]. *)
Fixpoint run_upto (n : nat) (p : ascii -> bool) (s : list ascii) : list ascii :=
  match n, s with
  | S n', c :: s' => if p c then c :: run_upto n' p s' else []
  | _, _ => []
  end.

Fixpoint has_prefix (w s : list ascii) : bool :=
  match w, s with
  | [], _ => true
  | a :: w', b :: s' => Ascii.eqb a b && has_prefix w' s'
  | _ :: _, [] => false
  end.

(** The action token at the head of [s]. *)
Definition action_at (s : list ascii) : option string :=
  if has_prefix (list_ascii_of_string "BUY") s then Some "BUY"
  else if has_prefix (list_ascii_of_string "SELL") s then Some "SELL"
  else None.

(** The trade at the head of [s]: an action token, white space, and the
    symbol token that follows, of one to five capitals. The result is the
    pair and the text behind the symbol. *)
Definition trade_at (s : list ascii) : option (string * string * list ascii) :=
  match action_at s with
  | None => None
  | Some a =>
      let s1 := skipn (String.length a) s in
      let s2 := after_run is_space s1 in
      let sym := run_upto 5 is_upper_AZ s2 in
      match run is_space s1, sym with
      | _ :: _, _ :: _ =>
          Some (a, string_of_list_ascii sym, skipn (List.length sym) s2)
      | _, _ => None
      end
  end.

(** The trades of a text in the order of encounter: the text is read
    from the left; where a trade stands it is taken and the reading goes
    on behind it ([skip] characters further). *)
Fixpoint pair_tokens (skip : nat) (s : list ascii) : list (string * string) :=
  match s with
  | [] => []
  | _ :: s' =>
      match skip with
      | S k => pair_tokens k s'
      | O =>
          match trade_at s with
          | Some (a, sym, behind) =>
              (a, sym) :: pair_tokens (List.length s' - List.length behind) s'
          | None => pair_tokens 0 s'
          end
      end
  end.

End TradeSpec.

(** ** The patterns of [etoro_advanced_scraper.py] *)

Module Patterns.
Import Chars Re.

Definition digit : regex := Chr is_digit.    (* \d *)
Definition space : regex := Chr is_space.    (* \s *)
Definition word : regex := Chr is_word.      (* \w *)
Definition set (cs : string) : regex := Chr (one_of cs).

(** [\d+(?:\.\d+)?%] after an optional sign out of [signs] *)
Definition percent (signs : string) : regex :=
  seqs [Opt (set signs); Plus digit; Opt (Seq (Lit ".") (Plus digit)); Lit "%"].

(** [extract_number]: [[-+]?\d*\.?\d+] *)
Definition number_re : regex :=
  seqs [Opt (set "-+"); Star digit; Opt (Lit "."); Plus digit].

(** The end of [number_re]: [\.?\d+] *)
Definition frac_re : regex := Seq (Opt (Lit ".")) (Plus digit).

(** Where [\.?\d+] ends when it starts at [st]: after the point and the
    digits behind it, or else after the digits at [st]. *)
Definition fraction_end (st : mstate) : option mstate :=
  match rest st with
  | c :: s3 =>
      if Ascii.eqb "." c
      then if starts_with_class is_digit s3
           then Some (skip is_digit (MState (Some c) s3 (caps st)))
           else None
      else if is_digit c then Some (skip is_digit st) else None
  | [] => None
  end.

(** Where [\d*\.?\d+] ends: the digits are taken first, then the
    fraction; without a fraction the last of the digits serves [\d+]. *)
Definition digits_end (st : mstate) : option mstate :=
  match fraction_end (skip is_digit st) with
  | Some st1 => Some st1
  | None => if starts_with_class is_digit (rest st) then Some (skip is_digit st) else None
  end.

(** Where [number_re] ends when it starts at [st]. *)
Definition number_end (st : mstate) : option mstate :=
  match rest st with
  | c :: s' => if one_of "-+" c then digits_end (advance c s' st) else digits_end st
  | [] => None
  end.

(** [get_profile_info] *)

(** [(\d+(?:,\d+)?)\s*[Cc]opiers] *)
Definition copiers_re : regex :=
  seqs [Group 1 (Seq (Plus digit) (Opt (Seq (Lit ",") (Plus digit))));
        Star space; set "Cc"; Lit "opiers"].

(** [\$?([\d,]+(?:\.\d+)?[KMB]?)\s*AUM] *)
Definition aum_re : regex :=
  seqs [Opt (Lit "$");
        Group 1 (seqs [Plus (Chr (fun c => is_digit c || Ascii.eqb "," c));
                       Opt (Seq (Lit ".") (Plus digit)); Opt (set "KMB")]);
        Star space; Lit "AUM"].

(** [([-+]?\d+(?:\.\d+)?%)\s*[Gg]ain] *)
Definition gain_re : regex :=
  seqs [Group 1 (percent "-+"); Star space; set "Gg"; Lit "ain"].

(** [[Rr]isk\s*[Ss]core\s*(\d+)] *)
Definition risk_score_re : regex :=
  seqs [set "Rr"; Lit "isk"; Star space; set "Ss"; Lit "core"; Star space; Group 1 (Plus digit)].

(** [[Mm]ax\s*[Dd]rawdown\s*([-]?\d+(?:\.\d+)?%)] *)
Definition max_drawdown_re : regex :=
  seqs [set "Mm"; Lit "ax"; Star space; set "Dd"; Lit "rawdown"; Star space; Group 1 (percent "-")].

(** [[Ww]eekly\s*[Dd]rawdown\s*([-]?\d+(?:\.\d+)?%)] *)
Definition weekly_dd_re : regex :=
  seqs [set "Ww"; Lit "eekly"; Star space; set "Dd"; Lit "rawdown"; Star space; Group 1 (percent "-")].

Definition profile_patterns : list (string * regex) :=
  [("copiers", copiers_re); ("aum", aum_re); ("gain", gain_re);
   ("risk_score", risk_score_re); ("max_drawdown", max_drawdown_re);
   ("weekly_dd", weekly_dd_re)].

(** [get_performance_stats] *)

(** [[Tt]otal\s*[Gg]ain\s*([-+]?\d+(?:\.\d+)?%)] *)
Definition total_gain_re : regex :=
  seqs [set "Tt"; Lit "otal"; Star space; set "Gg"; Lit "ain"; Star space; Group 1 (percent "-+")].

(** [[Yy]early\s*[Rr]eturn\s*([-+]?\d+(?:\.\d+)?%)] *)
Definition yearly_return_re : regex :=
  seqs [set "Yy"; Lit "early"; Star space; set "Rr"; Lit "eturn"; Star space; Group 1 (percent "-+")].

(** [[Mm]onthly\s*[Rr]eturn\s*([-+]?\d+(?:\.\d+)?%)] *)
Definition monthly_return_re : regex :=
  seqs [set "Mm"; Lit "onthly"; Star space; set "Rr"; Lit "eturn"; Star space; Group 1 (percent "-+")].

(** [[Dd]aily\s*([-+]?\d+(?:\.\d+)?%)] *)
Definition daily_return_re : regex :=
  seqs [set "Dd"; Lit "aily"; Star space; Group 1 (percent "-+")].

Definition performance_metrics : list (string * regex) :=
  [("total_gain", total_gain_re); ("yearly_return", yearly_return_re);
   ("monthly_return", monthly_return_re); ("daily_return", daily_return_re)].

(** [get_trading_stats] *)

(** [[Tt]otal\s*[Tt]rades\s*(\d+(?:,\d+)?)] *)
Definition total_trades_re : regex :=
  seqs [set "Tt"; Lit "otal"; Star space; set "Tt"; Lit "rades"; Star space;
        Group 1 (Seq (Plus digit) (Opt (Seq (Lit ",") (Plus digit))))].

(** [\d+(?:\.\d+)?%], unsigned *)
Definition upercent : regex :=
  seqs [Plus digit; Opt (Seq (Lit ".") (Plus digit)); Lit "%"].

(** [[Pp]rofitable\s*(\d+(?:\.\d+)?%)] *)
Definition profitable_trades_re : regex :=
  seqs [set "Pp"; Lit "rofitable"; Star space; Group 1 upercent].

(** [[Ww]in\s*[Rr]ate\s*(\d+(?:\.\d+)?%)] *)
Definition win_rate_re : regex :=
  seqs [set "Ww"; Lit "in"; Star space; set "Rr"; Lit "ate"; Star space; Group 1 upercent].

(** [[Aa]vg\.?\s*[Pp]rofit\s*([-+]?\d+(?:\.\d+)?%)] *)
Definition avg_profit_re : regex :=
  seqs [set "Aa"; Lit "vg"; Opt (Lit "."); Star space; set "Pp"; Lit "rofit"; Star space;
        Group 1 (percent "-+")].

(** [[Aa]vg\.?\s*[Ll]oss\s*([-+]?\d+(?:\.\d+)?%)] *)
Definition avg_loss_re : regex :=
  seqs [set "Aa"; Lit "vg"; Opt (Lit "."); Star space; set "Ll"; Lit "oss"; Star space;
        Group 1 (percent "-+")].

(** [[Tt]rades\s*[Pp]er\s*[Ww]eek\s*(\d+(?:\.\d+)?)] *)
Definition trades_per_week_re : regex :=
  seqs [set "Tt"; Lit "rades"; Star space; set "Pp"; Lit "er"; Star space; set "Ww"; Lit "eek";
        Star space; Group 1 (Seq (Plus digit) (Opt (Seq (Lit ".") (Plus digit))))].

(** [[Aa]vg\.?\s*[Hh]olding\s*[Tt]ime\s*(\d+\s*\w+)] *)
Definition avg_holding_time_re : regex :=
  seqs [set "Aa"; Lit "vg"; Opt (Lit "."); Star space; set "Hh"; Lit "olding"; Star space;
        set "Tt"; Lit "ime"; Star space; Group 1 (seqs [Plus digit; Star space; Plus word])].

Definition trading_patterns : list (string * regex) :=
  [("total_trades", total_trades_re); ("profitable_trades", profitable_trades_re);
   ("win_rate", win_rate_re); ("avg_profit", avg_profit_re); ("avg_loss", avg_loss_re);
   ("trades_per_week", trades_per_week_re); ("avg_holding_time", avg_holding_time_re)].

(** [get_portfolio_data]: [\$([A-Z]{1,5})\b] *)
Definition instrument_re : regex :=
  seqs [Lit "$"; Group 1 (Rep (Chr is_upper_AZ) 1 5); WordB].

(** [get_open_trades]: [(BUY|SELL)\s+([A-Z]{1,5})] *)
Definition trade_re : regex :=
  seqs [Group 1 (Alt (Lit "BUY") (Lit "SELL")); Plus space; Group 2 (Rep (Chr is_upper_AZ) 1 5)].

End Patterns.

(** ** Python values, exceptions and the external session *)

Module Py.
Import Chars.

(** An exception: its class name and its text, [str(e)]. Everything the
    driver raises derives from [Exception], so that [except Exception]
    and a bare [except] catch the same faults. *)
Inductive exn : Type := Exn (cls : string) (msg : string).

Definition str_exn (e : exn) : string := match e with Exn _ msg => msg end.

(** [NameError: name 'x' is not defined] *)
Definition NameError (x : string) : exn :=
  Exn "NameError" ("name '" +:+ x +:+ "' is not defined").

Inductive result (A : Type) : Type :=
  | Ok (a : A)
  | Raise (e : exn).
Arguments Ok {A} a.
Arguments Raise {A} e.

(** [s.lower()] *)
Fixpoint lower (s : string) : string :=
  match s with
  | EmptyString => EmptyString
  | String c s' => String (lower_char c) (lower s')
  end.

Fixpoint starts_with (needle hay : list ascii) : bool :=
  match needle, hay with
  | [], _ => true
  | _ :: _, [] => false
  | a :: needle', b :: hay' => Ascii.eqb a b && starts_with needle' hay'
  end.

Fixpoint contains_list (needle hay : list ascii) : bool :=
  starts_with needle hay ||
  match hay with
  | [] => false
  | _ :: hay' => contains_list needle hay'
  end.

(** [needle in hay] on strings *)
Definition contains (needle hay : string) : bool :=
  contains_list (list_ascii_of_string needle) (list_ascii_of_string hay).

(** [s.replace(',', '')] *)
Fixpoint remove_commas (s : string) : string :=
  match s with
  | EmptyString => EmptyString
  | String c s' => if Ascii.eqb c "," then remove_commas s' else String c (remove_commas s')
  end.

(** [bool(s)]: a string is true when it is not empty *)
Definition nonempty (s : string) : bool :=
  match s with EmptyString => false | String _ _ => true end.

(** [s[:n]] *)
Fixpoint take (n : nat) (s : string) : string :=
  match n, s with
  | S n', String c s' => String c (take n' s')
  | _, _ => EmptyString
  end.
Arguments take : simpl never.

(** [By.*] and the locator of [find_element(by, value)] *)
Inductive By : Type := TAG_NAME | CSS_SELECTOR | XPATH | NAME.
Definition locator : Type := (By * string)%type.

(** The external collaborators of the scrapers: the browser behind
    Selenium's driver and the clock. [S] is the state of the browser and
    of the world, [E] the type of element handles. Queries observe the
    state; navigation, input, clicks, the passing of time and quitting
    change it. Every call on the driver may raise. *)
Class Session (S E : Type) : Type := {
  new_chrome : S -> result unit * S;          (* webdriver.Chrome(...) *)
  hide_webdriver : S -> result unit * S;      (* execute_script / execute_cdp_cmd *)
  get : string -> S -> result unit * S;       (* driver.get(url) *)
  find_element : locator -> S -> result E;
  find_elements : locator -> S -> result (list E);
  text : E -> S -> result string;             (* element.text *)
  click : E -> S -> result unit * S;
  send_keys : E -> string -> S -> result unit * S;
  page_source : S -> result string;
  current_url : S -> result string;
  wait_presence : locator -> S -> result E * S;  (* wait.until(presence_of_element_located) *)
  quit : S -> result unit * S;                (* driver.quit() *)
  sleep : nat -> S -> S;                      (* time.sleep(n) *)
  now_isoformat : S -> string                 (* datetime.now().isoformat() *)
}.

(** What a run does to the session, in order. *)
Inductive event (E : Type) : Type :=
  | EvStart
  | EvGet (url : string)
  | EvClick (e : E)
  | EvSendKeys (e : E) (keys : string)
  | EvSleep (n : nat)
  | EvQuit.
Arguments EvStart {E}.
Arguments EvGet {E} url.
Arguments EvClick {E} e.
Arguments EvSendKeys {E} e keys.
Arguments EvSleep {E} n.
Arguments EvQuit {E}.

(** The scraper object and its world: the session, whether [self.driver]
    is set, and the trace of the actions so far. *)
Record world (S E : Type) : Type := World {
  sess : S;
  has_driver : bool;
  trace : list (event E)
}.
Arguments World {S E} sess has_driver trace.
Arguments sess {S E} w.
Arguments has_driver {S E} w.
Arguments trace {S E} w.

(** A computation: a result or an exception, and the world after it. *)
Definition M (S E A : Type) : Type := world S E -> result A * world S E.

Section Monad.
Context {S E : Type} `{Session S E}.
#[local] Abbreviation M := (M S E).

Definition ret {A} (a : A) : M A := fun w => (Ok a, w).
Definition raise {A} (e : exn) : M A := fun w => (Raise e, w).

Definition bind {A B} (c : M A) (f : A -> M B) : M B := fun w =>
  match c w with
  | (Ok a, w') => f a w'
  | (Raise e, w') => (Raise e, w')
  end.

(** [try: c  except: h] *)
Definition try_except {A} (c : M A) (h : exn -> M A) : M A := fun w =>
  match c w with
  | (Ok a, w') => (Ok a, w')
  | (Raise e, w') => h e w'
  end.

(** [try: c  finally: fin]: [fin] runs on both paths; an exception of
    [fin] replaces the outcome of [c]. *)
Definition try_finally {A} (c : M A) (fin : M unit) : M A := fun w =>
  match c w with
  | (r, w') =>
      match fin w' with
      | (Ok _, w'') => (r, w'')
      | (Raise e, w'') => (Raise e, w'')
      end
  end.

(** [try: s1; s2; ...  except Exception as e: h] where the statements
    update one local [d]: the statement that raises ends the block, and
    the handler sees [d] as the statements before it left it. *)
Fixpoint try_block {D} (steps : list (D -> M D)) (h : exn -> D -> M D) (d : D) : M D :=
  match steps with
  | [] => ret d
  | step :: steps' => fun w =>
      match step d w with
      | (Ok d', w') => try_block steps' h d' w'
      | (Raise e, w') => h e d w'
      end
  end.

(** [except Exception as e: print(...)] *)
Definition swallow {D} : exn -> D -> M D := fun _ d => ret d.

Definition query {A} (q : S -> result A) : M A := fun w => (q (sess w), w).

Definition action (ev : event E) (a : S -> result unit * S) : M unit := fun w =>
  match a (sess w) with
  | (r, s') => (r, World s' (has_driver w) (trace w ++ [ev]))
  end.

Definition driver_get (url : string) : M unit := action (EvGet url) (get url).
Definition element_click (e : E) : M unit := action (EvClick e) (click e).
Definition element_send_keys (e : E) (keys : string) : M unit :=
  action (EvSendKeys e keys) (send_keys e keys).
Definition time_sleep (n : nat) : M unit := fun w =>
  (Ok tt, World (sleep n (sess w)) (has_driver w) (trace w ++ [EvSleep n])).
Definition wait_until_presence (l : locator) : M E := fun w =>
  match wait_presence l (sess w) with
  | (r, s') => (r, World s' (has_driver w) (trace w))
  end.
Definition datetime_now : M string := fun w => (Ok (now_isoformat (sess w)), w).

(** [driver.find_element(by, value).text] *)
Definition element_text (l : locator) : M string := fun w =>
  match find_element l (sess w) with
  | Ok e => (text e (sess w), w)
  | Raise x => (Raise x, w)
  end.

(** [start_driver]: [self.driver] is set once the browser exists. *)
Definition start_driver : M unit := fun w =>
  match new_chrome (sess w) with
  | (Raise x, s') => (Raise x, World s' (has_driver w) (trace w ++ [EvStart]))
  | (Ok _, s') =>
      match hide_webdriver s' with
      | (r, s'') => (r, World s'' true (trace w ++ [EvStart]))
      end
  end.

(** [close_driver]: [if self.driver: self.driver.quit()] *)
Definition close_driver : M unit := fun w =>
  if has_driver w then action EvQuit quit w else (Ok tt, w).

End Monad.

Declare Scope py_scope.
Notation "x <- c ;; k" := (bind c (fun x => k))
  (at level 100, c at next level, right associativity) : py_scope.
Notation "c ;; k" := (bind c (fun _ => k))
  (at level 100, right associativity) : py_scope.

End Py.

(** ** The selector-based scraper: class [EtoroInvestorScraper] *)

Module Basic.
Import Py.
#[local] Open Scope py_scope.

(** One scraped portfolio or history entry: [{'text': ..., 'timestamp': ...}] *)
Record item : Type := Item { item_text : string; item_timestamp : string }.

(** The dict [investor_data]; the key ['error'] exists only after a fault. *)
Record investor_data : Type := InvestorData {
  username : string;
  url : string;
  scraped_at : string;
  profile : gmap string string;
  stats : gmap string (gmap string string);
  portfolio : list item;
  trade_history : list item;
  error : option string
}.

Definition set_profile (v : gmap string string) (r : investor_data) : investor_data :=
  InvestorData (username r) (url r) (scraped_at r) v (stats r) (portfolio r)
    (trade_history r) (error r).
Definition set_stats (v : gmap string (gmap string string)) (r : investor_data) : investor_data :=
  InvestorData (username r) (url r) (scraped_at r) (profile r) v (portfolio r)
    (trade_history r) (error r).
Definition set_portfolio (v : list item) (r : investor_data) : investor_data :=
  InvestorData (username r) (url r) (scraped_at r) (profile r) (stats r) v
    (trade_history r) (error r).
Definition set_trade_history (v : list item) (r : investor_data) : investor_data :=
  InvestorData (username r) (url r) (scraped_at r) (profile r) (stats r) (portfolio r)
    v (error r).
Definition set_error (v : string) (r : investor_data) : investor_data :=
  InvestorData (username r) (url r) (scraped_at r) (profile r) (stats r) (portfolio r)
    (trade_history r) (Some v).

(** [stats_data[section][key] = v] *)
Definition set_nested (section key v : string) (sd : gmap string (gmap string string))
    : gmap string (gmap string string) :=
  <[section := <[key := v]> (default ∅ (sd !! section))]> sd.

Definition nonempty (s : string) : bool :=
  match s with EmptyString => false | String _ _ => true end.

(** The locators of [scrape_profile], [scrape_stats] and [scrape_portfolio] *)
Definition name_locator : locator :=
  (CSS_SELECTOR, "h1, [data-etoro-automation-id='user-name']").
Definition copiers_locator : locator := (XPATH, "//*[contains(text(), 'Copiers')]").
Definition risk_score_locator : locator := (XPATH, "//*[contains(text(), 'Risk Score')]").
Definition stats_tab_locator : locator := (XPATH, "//button[contains(text(), 'Stats')]").
Definition portfolio_tab_locator : locator :=
  (XPATH, "//button[contains(text(), 'Portfolio')]").

Section Scraper.
Context {S E : Type} `{Session S E}.
#[local] Abbreviation M := (M S E).

(** [try: pd[key] = <lookup>  except: pd[key] = 'N/A'] *)
Definition lookup_or_na (key : string) (c : M string) (pd : gmap string string)
    : M (gmap string string) :=
  try_except (v <- c ;; ret (<[key := v]> pd)) (fun _ => ret (<[key := "N/A"]> pd)).

Definition scrape_profile : M (gmap string string) :=
  try_block
    [ lookup_or_na "name"
        (name_element <- wait_until_presence name_locator ;;
         query (text name_element));
      lookup_or_na "copiers" (element_text copiers_locator);
      lookup_or_na "risk_score" (element_text risk_score_locator) ]
    swallow ∅.

(** [if cond: try: sd[section][key] = <lookup>  except: pass] *)
Definition parse_if (cond : bool) (section key : string) (l : locator)
    (sd : gmap string (gmap string string)) : M (gmap string (gmap string string)) :=
  if cond
  then try_except (v <- element_text l ;; ret (set_nested section key v sd))
                  (fun _ => ret sd)
  else ret sd.

Definition scrape_stats : M (gmap string (gmap string string)) :=
  try_block
    [ (fun sd =>
         try_except
           (stats_tab <- query (find_element stats_tab_locator) ;;
            element_click stats_tab ;; time_sleep 2)
           (fun _ => ret tt) ;;
         ret sd);
      (fun sd =>
         page_text <- element_text (TAG_NAME, "body") ;;
         sd <- parse_if (contains "Gain" page_text) "performance" "gain"
                 (XPATH, "//*[contains(text(), 'Gain')]/following-sibling::*") sd ;;
         sd <- parse_if (contains "Total Trades" page_text || contains "trades" (lower page_text))
                 "trades" "total" (XPATH, "//*[contains(text(), 'Trades')]") sd ;;
         parse_if (contains "Win Rate" page_text || contains "Profitable" page_text)
           "trades" "win_rate"
           (XPATH, "//*[contains(text(), 'Win') or contains(text(), 'Profitable')]") sd) ]
    swallow
    (<["performance" := ∅]> (<["trades" := ∅]> (<["additional" := ∅]> ∅))).

(** The loop over the found elements: an entry per element with a
    nonempty text; an element whose text cannot be read is skipped. *)
Fixpoint collect_items (items : list E) (acc : list item) : M (list item) :=
  match items with
  | [] => ret acc
  | it :: items' =>
      acc' <- try_except
                (t <- query (text it) ;;
                 ts <- datetime_now ;;
                 ret (if nonempty t then acc ++ [Item t ts] else acc))
                (fun _ => ret acc) ;;
      collect_items items' acc'
  end.

Definition scrape_portfolio : M (list item) :=
  found <- try_except
             (portfolio_tab <- query (find_element portfolio_tab_locator) ;;
              element_click portfolio_tab ;; time_sleep 3 ;; ret true)
             (fun _ => ret false) ;;
  if found : bool
  then try_except
         (portfolio_items <- query (find_elements
            (CSS_SELECTOR, "[class*='portfolio'], [class*='position'], [data-etoro-automation-id*='portfolio']")) ;;
          collect_items (firstn 10 portfolio_items) [])
         (fun _ => ret [])
  else ret [].                      (* "Portfolio tab not found": return portfolio *)

Definition scrape_trade_history : M (list item) :=
  try_except
    (history_button <- query (find_element
       (XPATH, "//button[contains(text(), 'History')] | //*[contains(text(), 'History')]")) ;;
     element_click history_button ;; time_sleep 3)
    (fun _ => ret tt) ;;
  try_except
    (trade_elements <- query (find_elements
       (CSS_SELECTOR, "[class*='trade'], [class*='position'], [class*='history']")) ;;
     collect_items (firstn 20 trade_elements) [])
    (fun _ => ret []).

(** [scrape_investor], over the four passes it calls as methods *)
Definition scrape_investor_with
    (p_profile : M (gmap string string))
    (p_stats : M (gmap string (gmap string string)))
    (p_portfolio p_history : M (list item))
    (user : string) : M investor_data :=
  let url := "https://www.etoro.com/people/" +:+ user in
  start_driver ;;
  driver_get url ;;
  time_sleep 5 ;;
  now <- datetime_now ;;
  try_finally
    (try_block
       [ (fun r => v <- p_profile ;; ret (set_profile v r));
         (fun r => v <- p_stats ;; ret (set_stats v r));
         (fun r => v <- p_portfolio ;; ret (set_portfolio v r));
         (fun r => v <- p_history ;; ret (set_trade_history v r)) ]
       (fun e r => ret (set_error (str_exn e) r))
       (InvestorData user url now ∅ ∅ [] [] None))
    close_driver.

Definition scrape_investor : string -> M investor_data :=
  scrape_investor_with scrape_profile scrape_stats scrape_portfolio scrape_trade_history.

End Scraper.
End Basic.

(** ** The regex-based scraper: class [EtoroAdvancedScraper] *)

Module Advanced.
Import Py Re Patterns.
#[local] Open Scope py_scope.

(** One open trade: [{'action': ..., 'symbol': ...}] *)
Record trade : Type := Trade { action : string; symbol : string }.

(** The dict [investor_data] of [scrape_investor_complete] *)
Record investor_data : Type := InvestorData {
  username : string;
  profile_url : string;
  scraped_at : string;
  profile_info : gmap string string;
  performance_stats : gmap string string;
  trading_stats : gmap string string;
  portfolio : list string;
  open_trades : list trade;
  trade_history : list string;
  raw_page_data : gmap string string
}.

(** [for key, pattern in patterns.items(): match = re.search(pattern,
    body_text); if match: d[key] = match.group(1)]. Group 1 is outside
    every optional part of every pattern, so it is set in every match. *)
Fixpoint apply_patterns (patterns : list (string * regex)) (body_text : string)
    (d : gmap string string) : gmap string string :=
  match patterns with
  | [] => d
  | (key, pattern) :: patterns' =>
      apply_patterns patterns' body_text
        (match search pattern body_text with
         | Some mt => <[key := group_or_empty 1 mt]> d
         | None => d
         end)
  end.

(** ['page_text'] and ['url'] of [get_raw_data] *)
Definition raw_record (page_text url : string) : gmap string string :=
  <["page_text" := page_text]> (<["url" := url]> ∅).

(** [extract_number]. [F] stands for Python's [float] and [float] for
    the conversion [float(token)] of a matched token. *)
Section Number.
Context {F : Type} (float : string -> F).

Definition extract_number (text : option string) : option F :=
  match text with
  | None => None
  | Some EmptyString => None
  | Some t =>
      match search number_re (remove_commas t) with
      | Some mt => Some (float (group_or_empty 0 mt))
      | None => None
      end
  end.

End Number.

Section Scraper.
Context {S E : Type} `{Session S E}.
#[local] Abbreviation M := (M S E).

(** [list(set(xs))]: the order in which a set of strings is iterated
    depends on the hashes of the run. *)
Context (list_of_set : list string -> list string).

(** [login]; the credentials are the pair of ['username'] and ['password'] *)
Definition login (login_credentials : option (string * string)) : M bool :=
  match login_credentials with
  | None => ret false
  | Some (user, password) =>
      driver_get "https://www.etoro.com/login" ;;
      time_sleep 3 ;;
      try_except
        (username_field <- wait_until_presence (NAME, "username") ;;
         element_send_keys username_field user ;;
         password_field <- query (find_element (NAME, "password")) ;;
         element_send_keys password_field password ;;
         login_button <- query (find_element (CSS_SELECTOR, "button[type='submit']")) ;;
         element_click login_button ;;
         time_sleep 5 ;;
         ret true)
        (fun _ => ret false)
  end.

(** [for tab in tabs: if label in tab.text.lower(): tab.click();
    time.sleep(settle); break] *)
Fixpoint click_first_tab (label : string) (settle : nat) (tabs : list E) : M unit :=
  match tabs with
  | [] => ret tt
  | tab :: tabs' =>
      t <- query (text tab) ;;
      if contains label (lower t)
      then element_click tab ;; time_sleep settle
      else click_first_tab label settle tabs'
  end.

(** [tabs = driver.find_elements(By.TAG_NAME, "button")] and the loop *)
Definition open_section (label : string) (settle : nat) : M unit :=
  tabs <- query (find_elements (TAG_NAME, "button")) ;;
  click_first_tab label settle tabs.

Definition get_profile_info : M (gmap string string) :=
  try_block
    [ (fun profile =>
         body_text <- element_text (TAG_NAME, "body") ;;
         ret (apply_patterns profile_patterns body_text profile));
      (fun profile =>
         try_except
           (title <- element_text (TAG_NAME, "h1") ;;
            ret (<["name" := title]> profile))
           (* profile['name'] = username: no such name in this scope *)
           (fun _ => raise (NameError "username"))) ]
    swallow ∅.

Definition get_performance_stats : M (gmap string string) :=
  try_block
    [ (fun stats =>
         open_section "stat" 2 ;;
         body_text <- element_text (TAG_NAME, "body") ;;
         ret (apply_patterns performance_metrics body_text stats)) ]
    swallow ∅.

Definition get_trading_stats : M (gmap string string) :=
  try_block
    [ (fun trading =>
         body_text <- element_text (TAG_NAME, "body") ;;
         ret (apply_patterns trading_patterns body_text trading)) ]
    swallow ∅.

Definition get_portfolio_data : M (list string) :=
  try_block
    [ (fun _ =>
         open_section "portfolio" 3 ;;
         page_source <- query page_source ;;
         let instruments := findall1 instrument_re page_source in
         ret (firstn 50 (list_of_set instruments))) ]
    swallow [].

Definition get_open_trades : M (list trade) :=
  try_block
    [ (fun _ =>
         body_text <- element_text (TAG_NAME, "body") ;;
         let trade_patterns := findall2 trade_re body_text in
         ret (map (fun '(action, symbol) => Trade action symbol) trade_patterns)) ]
    swallow [].

Definition get_trade_history : M (list string) :=
  try_block
    [ (fun history =>
         open_section "history" 3 ;;
         _ <- element_text (TAG_NAME, "body") ;;
         ret history) ]
    swallow [].

Definition get_raw_data : M (gmap string string) :=
  try_except
    (page_text <- element_text (TAG_NAME, "body") ;;
     url <- query current_url ;;
     ret (raw_record (take 5000 page_text) url))
    (fun _ => ret ∅).

(** The cookie banner: [try: find the button; click; time.sleep(1)
    except: pass] *)
Definition accept_cookies : M unit :=
  try_except
    (cookie_accept <- query (find_element
       (XPATH, "//button[contains(text(), 'Accept') or contains(text(), 'agree')]")) ;;
     element_click cookie_accept ;; time_sleep 1)
    (fun _ => ret tt).

Definition scrape_investor_complete (login_credentials : option (string * string))
    (user : string) : M investor_data :=
  let url := "https://www.etoro.com/people/" +:+ user in
  start_driver ;;
  (match login_credentials with
   | Some _ => _ <- login login_credentials ;; ret tt
   | None => ret tt
   end) ;;
  driver_get url ;;
  time_sleep 5 ;;
  accept_cookies ;;
  now <- datetime_now ;;
  profile_info <- get_profile_info ;;
  performance_stats <- get_performance_stats ;;
  trading_stats <- get_trading_stats ;;
  portfolio <- get_portfolio_data ;;
  open_trades <- get_open_trades ;;
  trade_history <- get_trade_history ;;
  raw_page_data <- get_raw_data ;;
  close_driver ;;
  ret (InvestorData user url now profile_info performance_stats trading_stats
         portfolio open_trades trade_history raw_page_data).

End Scraper.
End Advanced.

(** ** A canned session

    A session for running the scrapers on fixed pages: the page is a list
    of elements, each listed under the locator that finds it, and the
    browser can be made to crash at a given time. *)

Module Stub.
Import Py.

Record state : Type := State {
  elements : list (locator * string);   (* locator and text of each element *)
  source : string;                      (* driver.page_source *)
  address : string;                     (* driver.current_url *)
  clock : nat;                          (* seconds since the start *)
  crash_at : option nat                 (* the browser is lost from then on *)
}.

Definition alive (s : state) : bool :=
  match crash_at s with
  | Some t => (clock s <? t)%nat
  | None => true
  end.

Definition By_eqb (a b : By) : bool :=
  match a, b with
  | TAG_NAME, TAG_NAME | CSS_SELECTOR, CSS_SELECTOR | XPATH, XPATH | NAME, NAME => true
  | _, _ => false
  end.

Definition locator_eqb (a b : locator) : bool :=
  By_eqb (fst a) (fst b) && String.eqb (snd a) (snd b).

Definition found (l : locator) (s : state) : list string :=
  map snd (List.filter (fun e => locator_eqb l (fst e)) (elements s)).

Definition lost : exn := Exn "WebDriverException" "Message: invalid session id".
Definition no_such_element : exn :=
  Exn "NoSuchElementException" "Message: no such element: Unable to locate element".
Definition timed_out : exn := Exn "TimeoutException" "Message: ".

Definition guarded {A} (s : state) (r : result A) : result A :=
  if alive s then r else Raise lost.

Definition tick (n : nat) (s : state) : state :=
  State (elements s) (source s) (address s) (clock s + n) (crash_at s).

#[export] Instance session : Session state string := {|
  new_chrome s := (Ok tt, s);
  hide_webdriver s := (guarded s (Ok tt), s);
  get u s :=
    (guarded s (Ok tt),
     if alive s then State (elements s) (source s) u (clock s) (crash_at s) else s);
  find_element l s :=
    guarded s (match found l s with e :: _ => Ok e | [] => Raise no_such_element end);
  find_elements l s := guarded s (Ok (found l s));
  text e s := guarded s (Ok e);
  click e s := (guarded s (Ok tt), s);
  send_keys e keys s := (guarded s (Ok tt), s);
  page_source s := guarded s (Ok (source s));
  current_url s := guarded s (Ok (address s));
  wait_presence l s :=
    match found l s with
    | e :: _ => (guarded s (Ok e), s)
    | [] => (guarded s (Raise timed_out), tick 20 s)
    end;
  quit s := (Ok tt, s);
  sleep n s := tick n s;
  now_isoformat s := "2024-05-01T12:00:00"
|}.

(** A page that is up, and the world before a run. *)
Definition page (els : list (locator * string)) (src : string) : state :=
  State els src "about:blank" 0 None.

Definition crashing (t : nat) (s : state) : state :=
  State (elements s) (source s) (address s) (clock s) (Some t).

Definition fresh (s : state) : world state string := World s false [].

Definition body (t : string) : locator * string := ((TAG_NAME, "body"), t).
Definition button (t : string) : locator * string := ((TAG_NAME, "button"), t).

(** A page source with 51 instruments: A to Z, then AA to AY. *)
Definition fifty_one : string :=
  "$A $B $C $D $E $F $G $H $I $J $K $L $M $N $O $P $Q $R $S $T $U $V $W $X $Y $Z " +:+
  "$AA $AB $AC $AD $AE $AF $AG $AH $AI $AJ $AK $AL $AM $AN $AO $AP $AQ $AR $AS $AT " +:+
  "$AU $AV $AW $AX $AY".

(** The profile page of an investor, with its elements listed under the
    locators of both scrapers. *)
Definition profile_page : state :=
  page [ (Basic.name_locator, "Thomas");
         (Basic.copiers_locator, "1,234 Copiers");
         (Basic.risk_score_locator, "Risk Score 4");
         (Basic.stats_tab_locator, "Stats");
         button "Stats"; button "Portfolio";
         body "Thomas 1,234 Copiers Risk Score 4 Gain 12% Total Trades 87" ]
       "<span>$AAPL</span>".

End Stub.

(** ** Exact decimals

    Numbers for running [extract_number] on examples: a sign, the digits
    of the integer part without leading zeros and the digits of the
    fraction without trailing zeros. [of_token] reads a number the way
    [float] does (a sign, digits, a fraction, an exponent) and [to_text]
    writes it the way [str] writes a float: with a point and a digit on
    each side of it, and with an exponent when the number is below
    0.0001 or from 1e16 on. The two agree with Python on the numbers of
    at most 15 significant digits within the range of a double; longer
    numbers are rounded by Python and not here, and [inf] and [nan] are
    not modelled. On a text that is no number [float] raises; the tokens
    of [number_re] and the texts that [str] writes are numbers. *)

Module Decimal.
Import Chars NumberSpec.

Record decimal : Type := Dec {
  negative : bool;
  int_digits : list ascii;
  frac_digits : list ascii
}.

Fixpoint strip_zeros (ds : list ascii) : list ascii :=
  match ds with
  | c :: ds' => if Ascii.eqb c "0" then strip_zeros ds' else ds
  | [] => []
  end.

(** The zeros at the head of a list of digits. *)
Fixpoint leading_zeros (ds : list ascii) : nat :=
  match ds with
  | c :: ds' => if Ascii.eqb c "0" then S (leading_zeros ds') else 0
  | [] => 0
  end.

Definition nat_of_digits (ds : list ascii) : nat :=
  fold_left (fun n c => 10 * n + (code c - 48)) ds 0.

Fixpoint digits_of_nat (fuel n : nat) (acc : list ascii) : list ascii :=
  match fuel with
  | O => acc
  | S f =>
      let acc' := ascii_of_nat (48 + n mod 10) :: acc in
      if (n / 10 =? 0)%nat then acc' else digits_of_nat f (n / 10) acc'
  end.

(** The digits [int_part . frac_part] with the point moved [n] places to
    the right or, for a negative exponent, to the left. *)
Definition move_point (int_part frac_part : list ascii) (to_left : bool) (n : nat)
    : list ascii * list ascii :=
  if to_left
  then let padded := repeat "0"%char n ++ int_part in
       (firstn (List.length int_part) padded,
        skipn (List.length int_part) padded ++ frac_part)
  else let padded := frac_part ++ repeat "0"%char n in
       (int_part ++ firstn n padded, skipn n frac_part).

(** The exponent at the head of [s]: [e] or [E], a sign, digits. *)
Definition exponent_at (s : list ascii) : bool * nat :=
  match s with
  | c :: s' =>
      if one_of "eE" c
      then match s' with
           | c' :: s'' =>
               if is_sign c' then (Ascii.eqb c' "-", nat_of_digits (run is_digit s''))
               else (false, nat_of_digits (run is_digit s'))
           | [] => (false, 0)
           end
      else (false, 0)
  | [] => (false, 0)
  end.

Definition of_token (tok : string) : decimal :=
  let s := list_ascii_of_string tok in
  let '(neg, s1) :=
    match s with
    | c :: s' => if is_sign c then (Ascii.eqb c "-", s') else (false, s)
    | [] => (false, [])
    end in
  let '(frac, s2) :=
    match after_run is_digit s1 with
    | c :: s3 =>
        if Ascii.eqb c "." then (run is_digit s3, after_run is_digit s3)
        else ([], c :: s3)
    | [] => ([], [])
    end in
  let '(to_left, n) := exponent_at s2 in
  let '(int', frac') := move_point (run is_digit s1) frac to_left n in
  Dec neg (strip_zeros int') (rev (strip_zeros (rev frac'))).

Definition or_zero (ds : list ascii) : list ascii :=
  match ds with [] => ["0"%char] | _ :: _ => ds end.

(** [d.ddd], then [e], the sign and at least two digits of the exponent *)
Definition scientific (digits : list ascii) (to_left : bool) (n : nat) : list ascii :=
  match rev (strip_zeros (rev digits)) with
  | [] => []
  | d :: more =>
      d :: (match more with [] => [] | _ :: _ => "."%char :: more end) ++
      "e"%char :: (if to_left then "-"%char else "+"%char) ::
      (if (n <? 10)%nat then ["0"%char] else []) ++ digits_of_nat (S n) n []
  end.

Definition to_text (v : decimal) : string :=
  string_of_list_ascii
    ((if negative v then ["-"%char] else []) ++
     match int_digits v, frac_digits v with
     | [], _ :: _ =>
         let k := leading_zeros (frac_digits v) in
         if (k <? 4)%nat
         then "0"%char :: "."%char :: frac_digits v
         else scientific (strip_zeros (frac_digits v)) true (S k)
     | _, _ =>
         if (List.length (int_digits v) <=? 16)%nat
         then or_zero (int_digits v) ++ "."%char :: or_zero (frac_digits v)
         else scientific (int_digits v ++ frac_digits v) false
                (List.length (int_digits v) - 1)
     end).

End Decimal.

(** ** Observations on runs *)

Module Obs.
Import Py.

Definition is_quit {E : Type} (ev : event E) : bool :=
  match ev with EvQuit => true | _ => false end.

(** How often [driver.quit()] was called. *)
Definition quits {E : Type} (tr : list (event E)) : nat :=
  List.length (filter (fun ev => is_quit ev = true) tr).

(** A computation that leaves [self.driver] alone and never quits. *)
Definition quiet {S E A : Type} (c : M S E A) : Prop :=
  forall w r w', c w = (r, w') ->
    has_driver w' = has_driver w /\ quits (trace w') = quits (trace w).

(** A quiet computation out of which no exception escapes. *)
Definition safe {S E A : Type} (c : M S E A) : Prop :=
  quiet c /\ forall w, exists a w', c w = (Ok a, w').

(** The value a selector lookup leaves in the record. *)
Definition or_na (r : result string) : string :=
  match r with Ok v => v | Raise _ => "N/A" end.

(** The binding a regex rule leaves in the record: group 1 of the first
    match in the text read, or no binding. *)
Definition rule_value (pattern : Re.regex) (body_text : result string) : option string :=
  match body_text with
  | Ok t =>
      match Re.search pattern t with
      | Some mt => Some (Re.group_or_empty 1 mt)
      | None => None
      end
  | Raise _ => None
  end.

(** The buttons that the section loop reads and passes over: their text
    can be read and does not contain the label in any letter case. *)
Definition passed_over {S E : Type} `{Session S E} (label : string) (w : world S E)
    (tabs : list E) : Prop :=
  Forall (fun e => exists t, text e (sess w) = Ok t /\ contains label (lower t) = false) tabs.

(** The text [s] holds the trades [out] one after the other: each is a
    [BUY] or [SELL], then white space, then a symbol of one to five
    capitals; other text may stand before, between and after them. *)
Inductive paired : list ascii -> list (string * string) -> Prop :=
  | paired_nil s : paired s []
  | paired_cons pre a ws sym post out :
      a = "BUY" \/ a = "SELL" ->
      ws <> [] -> Forall (fun c => Chars.is_space c = true) ws ->
      1 <= List.length sym <= 5 -> Forall (fun c => Chars.is_upper_AZ c = true) sym ->
      paired post out ->
      paired (pre ++ list_ascii_of_string a ++ ws ++ sym ++ post)
             ((a, string_of_list_ascii sym) :: out).

(** The shape of one open trade. *)
Definition trade_shape (a sym : string) : Prop :=
  (a = "BUY" \/ a = "SELL") /\
  1 <= String.length sym <= 5 /\
  Forall (fun c => Chars.is_upper_AZ c = true) (list_ascii_of_string sym).

(** An instrument of the page source: one to five capitals that follow a
    dollar sign somewhere in [src]. *)
Definition instrument_in (src x : string) : Prop :=
  1 <= String.length x <= 5 /\
  Forall (fun c => Chars.is_upper_AZ c = true) (list_ascii_of_string x) /\
  exists pre post,
    list_ascii_of_string src = pre ++ "$"%char :: list_ascii_of_string x ++ post.

(** [list(set(xs))] lists every member of [xs] once, in some order. *)
Definition enumerates (list_of_set : list string -> list string) : Prop :=
  forall xs, NoDup (list_of_set xs) /\ forall x, x ∈ list_of_set xs <-> x ∈ xs.

(** The members of [xs] in the order of their first occurrence. *)
Fixpoint encounter_order (seen xs : list string) : list string :=
  match xs with
  | [] => []
  | x :: xs' =>
      if bool_decide (x ∈ seen) then encounter_order seen xs'
      else x :: encounter_order (x :: seen) xs'
  end.

(** What a computation appends to the trace, on every path. *)
Definition emits {S E A : Type} (P : list (event E) -> Prop) (c : M S E A) : Prop :=
  forall w r w', c w = (r, w') -> exists evs, trace w' = trace w ++ evs /\ P evs.

(** A computation that does nothing to the session: it only reads. *)
Definition silent {S E A : Type} (c : M S E A) : Prop :=
  emits (fun evs => evs = []) c.

(** At most one click; the settle sleep follows a click that went
    through, and nothing else happens. *)
Definition one_click {E : Type} (settle : nat) (evs : list (event E)) : Prop :=
  evs = [] \/ exists b, evs = [EvClick b] \/ evs = [EvClick b; EvSleep settle].

(** The texts of the elements whose text can be read and is not empty,
    in the order of the elements. *)
Definition readable_texts {S E : Type} `{Session S E} (s : S) (items : list E)
    : list string :=
  omap (fun it =>
          match text it s with
          | Ok t => if nonempty t then Some t else None
          | Raise _ => None
          end) items.

(** An instrument that stands in [src] as a whole word: one to five
    capitals after a dollar sign, and no letter, digit or underscore
    right behind them. *)
Definition whole_instrument_in (src x : string) : Prop :=
  1 <= String.length x <= 5 /\
  Forall (fun c => Chars.is_upper_AZ c = true) (list_ascii_of_string x) /\
  exists pre post,
    list_ascii_of_string src = pre ++ "$"%char :: list_ascii_of_string x ++ post /\
    Re.starts_with_class Chars.is_word post = false.

(** What [login] does on the login page, by its result: when it returns
    [True] the user name and the password were typed, the button was
    clicked and five seconds passed; when it returns [False] it stopped
    somewhere before the end of that. *)
Definition login_trace {E : Type} (user password : string) (ok : bool)
    (evs : list (event E)) : Prop :=
  if ok
  then exists fu fp b,
         evs = [EvSendKeys fu user; EvSendKeys fp password; EvClick b; EvSleep 5]
  else evs = [] \/
       exists fu, evs = [EvSendKeys fu user] \/
       exists fp, evs = [EvSendKeys fu user; EvSendKeys fp password] \/
       exists b, evs = [EvSendKeys fu user; EvSendKeys fp password; EvClick b].

End Obs.

(** * Properties *)

(** ** The monad: what passes keep and when they cannot raise *)

Module PyFacts.
Import Py Obs.
#[local] Open Scope py_scope.

Create HintDb py.

Section MonadFacts.
Context {S E : Type} `{Session S E}.
#[local] Abbreviation M := (M S E).

Lemma quits_app (tr1 tr2 : list (event E)) : quits (tr1 ++ tr2) = quits tr1 + quits tr2.
Proof. unfold quits. by rewrite filter_app, length_app. Qed.

Lemma quits_snoc (tr : list (event E)) (ev : event E) :
  quits (tr ++ [ev]) = quits tr + (if is_quit ev then 1 else 0).
Proof.
  rewrite quits_app. f_equal. unfold quits. destruct ev; reflexivity.
Qed.

Lemma quiet_ret {A} (a : A) : quiet (ret a : M A).
Proof. intros w r w' [= <- <-]. done. Qed.

Lemma quiet_raise {A} e : quiet (raise e : M A).
Proof. intros w r w' [= <- <-]. done. Qed.

Lemma quiet_bind {A B} (c : M A) (f : A -> M B) :
  quiet c -> (forall a, quiet (f a)) -> quiet (bind c f).
Proof.
  intros Hc Hf w r w'. unfold bind. destruct (c w) as [[a|e] w1] eqn:Ec; intros Hr.
  - destruct (Hc _ _ _ Ec) as [<- <-]. exact (Hf a _ _ _ Hr).
  - injection Hr as <- <-. exact (Hc _ _ _ Ec).
Qed.

Lemma quiet_try_except {A} (c : M A) (h : exn -> M A) :
  quiet c -> (forall e, quiet (h e)) -> quiet (try_except c h).
Proof.
  intros Hc Hh w r w'. unfold try_except. destruct (c w) as [[a|e] w1] eqn:Ec; intros Hr.
  - injection Hr as <- <-. exact (Hc _ _ _ Ec).
  - destruct (Hc _ _ _ Ec) as [<- <-]. exact (Hh e _ _ _ Hr).
Qed.

Lemma quiet_try_block {D} (steps : list (D -> M D)) (h : exn -> D -> M D) (d : D) :
  Forall (fun step => forall d, quiet (step d)) steps ->
  (forall e d, quiet (h e d)) -> quiet (try_block steps h d).
Proof.
  intros Hs Hh. revert d. induction Hs as [|step steps Hstep _ IH]; intros d; simpl.
  - apply quiet_ret.
  - intros w r w'. destruct (step d w) as [[d'|e] w1] eqn:Es; intros Hr.
    + destruct (Hstep _ _ _ _ Es) as [<- <-]. exact (IH d' _ _ _ Hr).
    + destruct (Hstep _ _ _ _ Es) as [<- <-]. exact (Hh e d _ _ _ Hr).
Qed.

Lemma quiet_query {A} (q : S -> result A) : quiet (query q : M A).
Proof. intros w r w' [= <- <-]. done. Qed.

Lemma quiet_action (ev : event E) (a : S -> result unit * S) : is_quit ev = false -> quiet (action ev a).
Proof.
  intros Hev w r w'. unfold action. destruct (a (sess w)) as [r1 s1].
  intros [= <- <-]. simpl. split; [done|].
  rewrite quits_snoc, Hev. lia.
Qed.

Lemma quiet_driver_get u : quiet (driver_get u).
Proof. by apply quiet_action. Qed.

Lemma quiet_element_click e : quiet (element_click e).
Proof. by apply quiet_action. Qed.

Lemma quiet_element_send_keys e keys : quiet (element_send_keys e keys).
Proof. by apply quiet_action. Qed.

Lemma quiet_time_sleep n : quiet (time_sleep n : M unit).
Proof.
  intros w r w' [= <- <-]. simpl. split; [done|].
  rewrite quits_snoc. simpl. lia.
Qed.

Lemma quiet_wait_until_presence l : quiet (wait_until_presence l).
Proof.
  intros w r w'. unfold wait_until_presence.
  destruct (wait_presence l (sess w)) as [r1 s1]. by intros [= <- <-].
Qed.

Lemma quiet_datetime_now : quiet (datetime_now : M string).
Proof. intros w r w' [= <- <-]. done. Qed.

Lemma quiet_element_text l : quiet (element_text l).
Proof.
  intros w r w'. unfold element_text.
  destruct (find_element l (sess w)); by intros [= <- <-].
Qed.

Lemma quiet_start_driver : forall w r w',
  start_driver w = (r, w') -> quits (trace w') = quits (trace w).
Proof.
  intros w r w'. unfold start_driver.
  destruct (new_chrome (sess w)) as [[[]|e] s1].
  - destruct (hide_webdriver s1) as [r1 s2]. intros [= <- <-]. simpl.
    rewrite quits_snoc. simpl. lia.
  - intros [= <- <-]. simpl.
    rewrite quits_snoc. simpl. lia.
Qed.

Lemma safe_quiet {A} (c : M A) : safe c -> quiet c.
Proof. by intros [? _]. Qed.

Lemma safe_ret {A} (a : A) : safe (ret a : M A).
Proof. split; [apply quiet_ret | intros w; by exists a, w]. Qed.

Lemma safe_bind {A B} (c : M A) (f : A -> M B) :
  safe c -> (forall a, safe (f a)) -> safe (bind c f).
Proof.
  intros [Qc Tc] Hf. split.
  - apply quiet_bind; [done | intros a; apply Hf].
  - intros w. destruct (Tc w) as (a & w1 & Ec). unfold bind. rewrite Ec.
    apply (Hf a).
Qed.

Lemma safe_try_except {A} (c : M A) (h : exn -> M A) :
  quiet c -> (forall e, safe (h e)) -> safe (try_except c h).
Proof.
  intros Qc Hh. split.
  - apply quiet_try_except; [done | intros e; apply Hh].
  - intros w. unfold try_except. destruct (c w) as [[a|e] w1]; [by eauto|].
    apply (Hh e).
Qed.

Lemma safe_try_block_swallow {D} (steps : list (D -> M D)) (d : D) :
  Forall (fun step => forall d, quiet (step d)) steps ->
  safe (try_block steps swallow d).
Proof.
  intros Hs. split.
  - apply quiet_try_block; [done | intros e d'; apply quiet_ret].
  - revert d. induction Hs as [|step steps _ _ IH]; intros d w; simpl.
    + by exists d, w.
    + destruct (step d w) as [[d'|e] w1]; [apply IH | by exists d, w1].
Qed.

Lemma safe_time_sleep n : safe (time_sleep n : M unit).
Proof. split; [apply quiet_time_sleep | intros w; by eauto]. Qed.

Lemma safe_datetime_now : safe (datetime_now : M string).
Proof. split; [apply quiet_datetime_now | intros w; by eauto]. Qed.

End MonadFacts.

#[export] Hint Resolve quiet_ret quiet_raise quiet_bind quiet_try_except
  quiet_query quiet_driver_get quiet_element_click quiet_element_send_keys
  quiet_time_sleep quiet_wait_until_presence quiet_datetime_now
  quiet_element_text safe_ret safe_bind safe_try_except safe_time_sleep
  safe_datetime_now safe_quiet : py.

End PyFacts.

Import Chars Re Patterns NumberSpec Py Obs PyFacts.
#[local] Open Scope py_scope.

(** ** Tactics *)

(** Decide a closed statement by evaluation. *)
Ltac by_compute := apply (bool_decide_unpack _); vm_compute; exact I.

(** Membership in a list that is written out. *)
Ltac in_list := repeat first [apply list_elem_of_here | apply list_elem_of_further].

Ltac quiet_hook := fail.

Ltac quiet_step :=
  first
    [ assumption | quiet_hook | apply quiet_ret | apply quiet_raise | apply quiet_query
    | apply quiet_driver_get | apply quiet_element_click
    | apply quiet_element_send_keys | apply quiet_time_sleep
    | apply quiet_wait_until_presence | apply quiet_datetime_now
    | apply quiet_element_text
    | match goal with
      | |- quiet (bind _ _) => apply quiet_bind
      | |- quiet (try_except _ _) => apply quiet_try_except
      end
    | lazymatch goal with
      | |- quiet (if ?b then _ else _) => destruct b
      | |- quiet (match ?x with _ => _ end) => destruct x
      | |- quiet _ => fail
      | |- forall _, _ => intro
      | |- Forall _ (_ :: _) => constructor
      | |- Forall _ [] => constructor
      end ].

Ltac quiet_tac := repeat quiet_step.

(** ** The passes of the selector-based scraper raise nothing *)

Module BasicFacts.
Import Basic.
Section Facts.
Context {S E : Type} `{Session S E}.
#[local] Abbreviation M := (M S E).

Lemma quiet_lookup_or_na key (c : M string) pd : quiet c -> quiet (lookup_or_na key c pd).
Proof. intros Hc. unfold lookup_or_na. quiet_tac. Qed.

Lemma safe_scrape_profile : safe (scrape_profile : M _).
Proof.
  apply safe_try_block_swallow. quiet_tac; apply quiet_lookup_or_na; quiet_tac.
Qed.

Lemma quiet_parse_if c section key l sd : quiet (parse_if c section key l sd : M _).
Proof. unfold parse_if. quiet_tac. Qed.

Lemma safe_scrape_stats : safe (scrape_stats : M _).
Proof.
  apply safe_try_block_swallow. quiet_tac; apply quiet_parse_if.
Qed.

Lemma safe_collect_items (items : list E) acc : safe (collect_items items acc : M _).
Proof.
  revert acc. induction items as [|it items IH]; intros acc; simpl.
  - apply safe_ret.
  - apply safe_bind; [|done].
    apply safe_try_except; [quiet_tac | intros; apply safe_ret].
Qed.

Lemma safe_scrape_portfolio : safe (scrape_portfolio : M _).
Proof.
  unfold scrape_portfolio. apply safe_bind.
  - apply safe_try_except; [quiet_tac | intros; apply safe_ret].
  - intros [|]; [|apply safe_ret].
    apply safe_try_except; [|intros; apply safe_ret].
    quiet_tac. apply safe_quiet, safe_collect_items.
Qed.

Lemma safe_scrape_trade_history : safe (scrape_trade_history : M _).
Proof.
  unfold scrape_trade_history. apply safe_bind.
  - apply safe_try_except; [quiet_tac | intros; apply safe_ret].
  - intros _. apply safe_try_except; [|intros; apply safe_ret].
    quiet_tac. apply safe_quiet, safe_collect_items.
Qed.

End Facts.
End BasicFacts.

(** ** The passes of the regex-based scraper raise nothing *)

Module AdvancedFacts.
Import Advanced.
Section Facts.
Context {S E : Type} `{Session S E}.
#[local] Abbreviation M := (M S E).
Context (list_of_set : list string -> list string).

Lemma quiet_click_first_tab label settle (tabs : list E) :
  quiet (click_first_tab label settle tabs : M _).
Proof. induction tabs as [|tab tabs IH]; simpl; quiet_tac. Qed.

Lemma quiet_open_section label settle : quiet (open_section label settle : M _).
Proof. unfold open_section. quiet_tac. apply quiet_click_first_tab. Qed.

Ltac quiet_hook ::=
  first [ apply quiet_open_section | apply quiet_click_first_tab ].

Lemma safe_get_profile_info : safe (get_profile_info : M _).
Proof. apply safe_try_block_swallow. quiet_tac. Qed.

Lemma safe_get_performance_stats : safe (get_performance_stats : M _).
Proof. apply safe_try_block_swallow. quiet_tac. Qed.

Lemma safe_get_trading_stats : safe (get_trading_stats : M _).
Proof. apply safe_try_block_swallow. quiet_tac. Qed.

Lemma safe_get_portfolio_data : safe (get_portfolio_data list_of_set : M _).
Proof. apply safe_try_block_swallow. quiet_tac. Qed.

Lemma safe_get_open_trades : safe (get_open_trades : M _).
Proof. apply safe_try_block_swallow. quiet_tac. Qed.

Lemma safe_get_trade_history : safe (get_trade_history : M _).
Proof. apply safe_try_block_swallow. quiet_tac. Qed.

Lemma safe_get_raw_data : safe (get_raw_data : M _).
Proof. apply safe_try_except; [quiet_tac | intros; apply safe_ret]. Qed.

Lemma safe_accept_cookies : safe (accept_cookies : M unit).
Proof. apply safe_try_except; [quiet_tac | intros; apply safe_ret]. Qed.

Lemma quiet_login creds : quiet (login creds : M bool).
Proof. unfold login. quiet_tac. Qed.

End Facts.
End AdvancedFacts.

(** ** The matcher *)

Module ReFacts.
Import Chars Re Patterns.

Lemma Iter_rest R n st w st1 :
  (forall st w st1, R st w st1 -> rest st = w ++ rest st1) ->
  Iter R n st w st1 -> rest st = w ++ rest st1.
Proof.
  intros HR. revert st w. induction n as [|n IH]; intros st w; simpl.
  - by intros [-> ->].
  - intros (w1 & w2 & st' & -> & H1 & H2).
    rewrite (HR _ _ _ H1), (IH _ _ H2). by rewrite <- app_assoc.
Qed.

Lemma Matches_rest r : forall st w st1, Matches r st w st1 -> rest st = w ++ rest st1.
Proof.
  induction r as [p| |r1 IH1 r2 IH2|r1 IH1 r2 IH2|r1 IH1|r1 IH1 lo hi|n r1 IH1|];
    intros st w st1; simpl.
  - by intros (c & s' & -> & _ & -> & ->).
  - by intros [-> ->].
  - intros (w1 & w2 & st' & -> & H1 & H2).
    rewrite (IH1 _ _ _ H1), (IH2 _ _ _ H2). by rewrite <- app_assoc.
  - intros [H1|H2]; eauto.
  - intros (n & Hn). exact (Iter_rest (Matches r1) _ _ _ _ IH1 Hn).
  - intros (n & _ & Hn). exact (Iter_rest (Matches r1) _ _ _ _ IH1 Hn).
  - intros (st' & H1 & ->). simpl. by apply IH1.
  - by intros (-> & -> & _).
Qed.

Lemma consumed_app st st1 w :
  rest st = w ++ rest st1 -> consumed st st1 = string_of_list_ascii w.
Proof.
  intros Hr. unfold consumed. rewrite Hr, length_app.
  replace (List.length w + List.length (rest st1) - List.length (rest st1)) with (List.length w) by lia.
  by rewrite take_app_length.
Qed.

(** The matcher only returns what the syntax allows. *)
Lemma star_loop_sound (step : mstate -> kont -> option mstate) R :
  (forall st k res, step st k = Some res -> exists w st1, R st w st1 /\ k st1 = Some res) ->
  forall fuel st k res, star_loop step fuel st k = Some res ->
  exists n w st1, Iter R n st w st1 /\ k st1 = Some res.
Proof.
  intros Hstep. induction fuel as [|f IH]; intros st k res; simpl.
  - intros Hk. by exists 0, [], st.
  - destruct (step st _) as [res'|] eqn:Es.
    + intros [= ->]. apply Hstep in Es as (w1 & st' & H1 & Hk).
      destruct (List.length (rest st') <? List.length (rest st))%nat; [|done].
      apply IH in Hk as (n & w2 & st1 & Hn & Hk).
      exists (S n), (w1 ++ w2), st1. split; [|done]. simpl. by exists w1, w2, st'.
    + intros Hk. by exists 0, [], st.
Qed.

Lemma rep_may_sound (step : mstate -> kont -> option mstate) R :
  (forall st k res, step st k = Some res -> exists w st1, R st w st1 /\ k st1 = Some res) ->
  forall may st k res, rep_may step may st k = Some res ->
  exists n w st1, n <= may /\ Iter R n st w st1 /\ k st1 = Some res.
Proof.
  intros Hstep. induction may as [|j IH]; intros st k res; simpl.
  - intros Hk. by exists 0, [], st.
  - destruct (step st _) as [res'|] eqn:Es.
    + intros [= ->]. apply Hstep in Es as (w1 & st' & H1 & Hk).
      apply IH in Hk as (n & w2 & st1 & Hle & Hn & Hk).
      exists (S n), (w1 ++ w2), st1. split; [lia|]. split; [|done]. simpl. by exists w1, w2, st'.
    + intros Hk. exists 0, [], st. split; [lia|done].
Qed.

Lemma rep_must_sound (step : mstate -> kont -> option mstate) R :
  (forall st k res, step st k = Some res -> exists w st1, R st w st1 /\ k st1 = Some res) ->
  forall must may st k res, rep_must step must may st k = Some res ->
  exists n w st1, must <= n <= must + may /\ Iter R n st w st1 /\ k st1 = Some res.
Proof.
  intros Hstep. induction must as [|i IH]; intros may st k res; simpl.
  - intros Hr. apply (rep_may_sound _ R Hstep) in Hr as (n & w & st1 & Hle & Hn & Hk).
    exists n, w, st1. split; [lia|done].
  - intros Hr. apply Hstep in Hr as (w1 & st' & H1 & Hr).
    apply IH in Hr as (n & w2 & st1 & Hle & Hn & Hk).
    exists (S n), (w1 ++ w2), st1. split; [lia|]. split; [|done]. simpl. by exists w1, w2, st'.
Qed.

Lemma m_sound r : forall st k res,
  m r st k = Some res -> exists w st1, Matches r st w st1 /\ k st1 = Some res.
Proof.
  induction r as [p| |r1 IH1 r2 IH2|r1 IH1 r2 IH2|r1 IH1|r1 IH1 lo hi|n r1 IH1|];
    intros st k res; simpl.
  - destruct (rest st) as [|c s'] eqn:Er; [done|].
    destruct (p c) eqn:Ep; [|done]. intros Hk.
    exists [c], (advance c s' st). split; [|done]. by exists c, s'.
  - intros Hk. by exists [], st.
  - intros Hr. apply IH1 in Hr as (w1 & st' & H1 & Hr).
    apply IH2 in Hr as (w2 & st1 & H2 & Hk).
    exists (w1 ++ w2), st1. split; [|done]. by exists w1, w2, st'.
  - destruct (m r1 st k) as [res'|] eqn:E1.
    + intros [= ->]. apply IH1 in E1 as (w & st1 & H1 & Hk). exists w, st1. by eauto.
    + intros Hr. apply IH2 in Hr as (w & st1 & H2 & Hk). exists w, st1. by eauto.
  - intros Hr. apply (star_loop_sound _ (Matches r1) IH1) in Hr as (n & w & st1 & Hn & Hk).
    exists w, st1. by eauto.
  - intros Hr. apply (rep_must_sound _ (Matches r1) IH1) in Hr as (n & w & st1 & Hle & Hn & Hk).
    exists w, st1. by eauto.
  - intros Hr. apply IH1 in Hr as (w & st' & H1 & Hk).
    rewrite (consumed_app _ _ w) in Hk by by apply (Matches_rest r1).
    exists w, (set_cap n (string_of_list_ascii w) st'). by eauto.
  - destruct (xorb _ _) eqn:Eb; [|done]. intros Hk. by exists [], st.
Qed.

Lemma match_here_sound r pv s st :
  match_here r pv s = Some st ->
  exists w st1, Matches r (MState pv s []) w st1 /\
    st = set_cap 0 (string_of_list_ascii w) st1 /\ s = w ++ rest st.
Proof.
  unfold match_here. intros Hm. apply m_sound in Hm as (w & st1 & (st' & H1 & ->) & [= <-]).
  exists w, st'. split_and!; [done..|]. by apply (Matches_rest r) in H1.
Qed.

Lemma search_from_sound r : forall s pv st,
  search_from r pv s = Some st ->
  exists pre pv' s', s = pre ++ s' /\ match_here r pv' s' = Some st.
Proof.
  induction s as [|c s IH]; intros pv st; simpl.
  - destruct (match_here r pv []) eqn:E; [|done]. intros [= <-]. by exists [], pv, [].
  - destruct (match_here r pv (c :: s)) eqn:E.
    + intros [= <-]. by exists [], pv, (c :: s).
    + intros Hs. apply IH in Hs as (pre & pv' & s' & -> & Hm).
      by exists (c :: pre), pv', s'.
Qed.

Lemma finditer_from_chain r : forall fuel pv s, Chain r s (finditer_from fuel r pv s).
Proof.
  induction fuel as [|f IH]; intros pv s; simpl; [constructor|].
  destruct (search_from r pv s) as [st|] eqn:Es; [|constructor].
  apply search_from_sound in Es as (pre & pv' & s' & -> & Hm).
  destruct (group_or_empty 0 st).
  2: by apply (Chain_cons r pre pv' s' st [] (rest st)).
  destruct (rest st) as [|c s2] eqn:Er.
  - apply (Chain_cons r pre pv' s' st [] []); [done|by rewrite Er|constructor].
  - apply (Chain_cons r pre pv' s' st [c] s2); [done|by rewrite Er|apply IH].
Qed.

(** The fuel of [finditer] never runs out. *)
Lemma search_from_rest r pv s st :
  search_from r pv s = Some st ->
  List.length (rest st) <= List.length s /\
  (group_or_empty 0 st <> "" -> List.length (rest st) < List.length s).
Proof.
  intros Hs. apply search_from_sound in Hs as (pre & pv' & s' & -> & Hm).
  apply match_here_sound in Hm as (w & st1 & _ & -> & Hs').
  cbn [rest set_cap] in Hs' |- *.
  assert (Hlen : List.length s' = List.length w + List.length (rest st1))
    by (by rewrite Hs' at 1; rewrite length_app).
  rewrite length_app. split; [lia|].
  unfold group_or_empty, group. cbn [caps lookup_cap Nat.eqb].
  destruct w; [done|]. intros _. cbn [List.length] in Hlen. lia.
Qed.

Lemma finditer_from_fuel r : forall fuel n pv s,
  List.length s < fuel -> List.length s < n ->
  finditer_from fuel r pv s = finditer_from n r pv s.
Proof.
  induction fuel as [|f IH]; intros n pv s Hf Hn; [lia|].
  destruct n as [|n]; [lia|]. cbn [finditer_from].
  destruct (search_from r pv s) as [st|] eqn:Es; [|done]. f_equal.
  destruct (search_from_rest _ _ _ _ Es) as [Hle Hlt].
  destruct (group_or_empty 0 st) eqn:Eg.
  - destruct (rest st) as [|c s2]; [done|]. cbn [List.length] in Hle.
    apply IH; lia.
  - assert (List.length (rest st) < List.length s) by by apply Hlt.
    apply IH; lia.
Qed.

Lemma Matches_Lit lit : forall st w st1,
  Matches (Lit lit) st w st1 -> w = list_ascii_of_string lit /\ caps st1 = caps st.
Proof.
  induction lit as [|a lit IH]; intros st w st1; simpl.
  - by intros [-> ->].
  - intros (w1 & w2 & st' & -> & (c & s' & _ & Hc & -> & ->) & H2).
    apply IH in H2 as [-> ->]. apply Ascii.eqb_eq in Hc as ->. done.
Qed.

Lemma Iter_Chr p n : forall st w st1,
  Iter (Matches (Chr p)) n st w st1 ->
  List.length w = n /\ Forall (fun c => p c = true) w /\ caps st1 = caps st.
Proof.
  induction n as [|n IH]; intros st w st1; simpl.
  - by intros [-> ->].
  - intros (w1 & w2 & st' & -> & (c & s' & _ & Hc & -> & ->) & H2).
    apply IH in H2 as (<- & Hall & ->). split_and!; [done| |done].
    by constructor.
Qed.

Lemma Matches_Plus_Chr p st w st1 :
  Matches (Plus (Chr p)) st w st1 ->
  w <> [] /\ Forall (fun c => p c = true) w /\ caps st1 = caps st.
Proof.
  unfold Plus. simpl.
  intros (w1 & w2 & st' & -> & (c & s' & _ & Hc & -> & ->) & (n & Hn)).
  apply Iter_Chr in Hn as (_ & Hall & ->). split_and!; [done| |done]. by constructor.
Qed.

(** A match of the trade pattern: its groups and the text it covers. *)
Lemma trade_match pv s st :
  match_here trade_re pv s = Some st ->
  exists a ws sym,
    (a = "BUY" \/ a = "SELL") /\
    ws <> [] /\ Forall (fun c => is_space c = true) ws /\
    1 <= List.length sym <= 5 /\ Forall (fun c => is_upper_AZ c = true) sym /\
    s = list_ascii_of_string a ++ ws ++ sym ++ rest st /\
    group 1 st = Some a /\ group 2 st = Some (string_of_list_ascii sym).
Proof.
  intros Hm. apply match_here_sound in Hm as (w & st1 & HM & -> & Hs).
  unfold trade_re, seqs in HM. cbn [Matches] in HM.
  destruct HM as (w1 & w23 & st' & -> & (st1' & Hact & ->) & w2 & w3 & st'' & -> & Hws
                  & st2' & (n & Hn & Hsym) & ->).
  apply Matches_Plus_Chr in Hws as (Hne & Hws & Hc2).
  apply Iter_Chr in Hsym as (Hlen & Hsym & Hc3).
  assert (exists a, (a = "BUY" \/ a = "SELL") /\ w1 = list_ascii_of_string a /\
                    caps st1' = []) as (a & Ha & -> & Hc1).
  { destruct Hact as [Hl|Hl]; apply Matches_Lit in Hl as [-> Hc].
    - exists "BUY". split_and!; [by left|done|done].
    - exists "SELL". split_and!; [by right|done|done]. }
  exists a, w2, w3. split_and!; try done; try lia.
  - simpl in Hs |- *. by rewrite <- !app_assoc in Hs.
  - unfold group. simpl. rewrite Hc3. simpl in Hc2. rewrite Hc2. simpl.
    by rewrite string_of_list_ascii_of_string.
Qed.

Lemma instrument_match pv s st :
  match_here instrument_re pv s = Some st ->
  exists sym,
    1 <= List.length sym <= 5 /\ Forall (fun c => is_upper_AZ c = true) sym /\
    s = "$"%char :: sym ++ rest st /\
    group 1 st = Some (string_of_list_ascii sym).
Proof.
  intros Hm. apply match_here_sound in Hm as (w & st1 & HM & -> & Hs).
  unfold instrument_re, seqs in HM. cbn [Matches] in HM.
  destruct HM as (w1 & w23 & st' & -> & Hd & w2 & w3 & st'' & -> &
                  (st2' & (n & Hn & Hsym) & ->) & -> & -> & _).
  apply Matches_Lit in Hd as [-> _].
  apply Iter_Chr in Hsym as (Hlen & Hsym & Hc).
  exists w2. split_and!; try done; try lia.
  simpl in Hs |- *. by rewrite app_nil_r in Hs.
Qed.

Lemma chain_elem r s sts st :
  Chain r s sts -> st ∈ sts ->
  exists pre pv s', s = pre ++ s' /\ match_here r pv s' = Some st.
Proof.
  induction 1 as [s|pre pv s' st0 gap s2 sts Hm Hrest _ IH]; intros Hin.
  - by apply elem_of_nil in Hin.
  - apply elem_of_cons in Hin as [->|Hin]; [by eauto|].
    destruct (IH Hin) as (pre2 & pv2 & s2' & -> & Hm2).
    apply match_here_sound in Hm as (w & st1 & _ & _ & ->).
    exists (pre ++ w ++ gap ++ pre2), pv2, s2'. split; [|done].
    rewrite Hrest. by rewrite <- !app_assoc.
Qed.

Lemma star_chr_stop p fuel st k :
  starts_with_class p (rest st) = false -> star_loop (m (Chr p)) fuel st k = k st.
Proof.
  intros Hs. destruct fuel as [|f]; [done|]. simpl.
  destruct (rest st) as [|c s']; [done|]. simpl in Hs. by rewrite Hs.
Qed.

Lemma star_chr_step p f st k c s' :
  rest st = c :: s' -> p c = true ->
  star_loop (m (Chr p)) (S f) st k =
    match star_loop (m (Chr p)) f (advance c s' st) k with
    | Some res => Some res
    | None => k st
    end.
Proof.
  intros Hr Hp. simpl. rewrite Hr, Hp. simpl.
  by rewrite (proj2 (Nat.ltb_lt _ _)) by lia.
Qed.

Lemma skip_stop p st : starts_with_class p (rest st) = false -> skip p st = st.
Proof.
  destruct st as [pv s cs]. unfold skip. simpl. intros Hs.
  destruct s as [|c s']; [done|]. simpl in *. by rewrite Hs.
Qed.

Lemma skip_step p st c s' :
  rest st = c :: s' -> p c = true -> skip p st = skip p (advance c s' st).
Proof.
  destruct st as [pv s cs]. unfold skip. simpl. intros -> Hp. simpl. by rewrite Hp.
Qed.

(** With a continuation that accepts every position, the star takes the
    longest run. *)
Lemma star_chr_greedy p k :
  (forall st, is_Some (k st)) ->
  forall fuel st, List.length (rest st) <= fuel ->
  star_loop (m (Chr p)) fuel st k = k (skip p st).
Proof.
  intros Hk. induction fuel as [|f IH]; intros st Hlen.
  - destruct (rest st) eqn:Er; [|simpl in Hlen; lia]. simpl.
    rewrite skip_stop; [done|by rewrite Er].
  - destruct (starts_with_class p (rest st)) eqn:Es.
    + destruct (rest st) as [|c s'] eqn:Er; [done|]. simpl in Es.
      rewrite (star_chr_step p f st k c s') by done.
      rewrite IH by (simpl in *; lia). rewrite <- (skip_step p st c s') by done.
      by destruct (Hk (skip p st)) as [res ->].
    + by rewrite star_chr_stop, skip_stop.
Qed.


Lemma m_Seq r1 r2 st k : m (Seq r1 r2) st k = m r1 st (fun st1 => m r2 st1 k).
Proof. done. Qed.

Lemma m_Group n r st k :
  m (Group n r) st k = m r st (fun st1 => k (set_cap n (consumed st st1) st1)).
Proof. done. Qed.

Lemma m_Chr p c s' pv cs k :
  m (Chr p) (MState pv (c :: s') cs) k = if p c then k (MState (Some c) s' cs) else None.
Proof. done. Qed.

Lemma m_Lit lit : forall pv s cs k,
  m (Lit lit) (MState pv (list_ascii_of_string lit ++ s) cs) k =
    k (MState (last_opt pv (list_ascii_of_string lit)) s cs).
Proof.
  induction lit as [|c lit IH]; intros pv s cs k; [done|].
  simpl. rewrite Ascii.eqb_refl. unfold advance. simpl. by rewrite IH.
Qed.

(** The star over a class stops at the end of the run when the rest of
    the pattern matches there. *)
Lemma star_chr_max p run : forall pv s cs k res fuel,
  Forall (fun c => p c = true) run ->
  starts_with_class p s = false ->
  List.length (run ++ s) <= fuel ->
  k (MState (last_opt pv run) s cs) = Some res ->
  star_loop (m (Chr p)) fuel (MState pv (run ++ s) cs) k = Some res.
Proof.
  induction run as [|c run IH]; intros pv s cs k res fuel Hrun Hs Hfuel Hk.
  - by rewrite star_chr_stop.
  - apply Forall_cons in Hrun as [Hc Hrun].
    destruct fuel as [|f]; [simpl in Hfuel; lia|].
    rewrite (star_chr_step p f _ k c (run ++ s)) by done.
    unfold advance. simpl caps.
    rewrite (IH (Some c) s cs k res f); [done..| |done].
    simpl in Hfuel. lia.
Qed.

Lemma m_Star_chr_max p run pv s cs k res :
  Forall (fun c => p c = true) run ->
  starts_with_class p s = false ->
  k (MState (last_opt pv run) s cs) = Some res ->
  m (Star (Chr p)) (MState pv (run ++ s) cs) k = Some res.
Proof. intros. by apply star_chr_max. Qed.

Example risk_here pv sfx :
  starts_with_class is_digit sfx = false ->
  match_here risk_score_re pv (list_ascii_of_string "Risk Score 42" ++ sfx) =
    Some (MState (Some "2"%char) sfx [(0, "Risk Score 42"); (1, "42")]).
Proof.
  intros Hs. unfold match_here, risk_score_re, set, space, digit, Plus. cbn [seqs].
  rewrite m_Group, m_Seq. 
  change (list_ascii_of_string "Risk Score 42" ++ sfx)
    with ("R"%char :: list_ascii_of_string "isk" ++ [" "%char] ++
          "S"%char :: list_ascii_of_string "core" ++ [" "%char] ++
          "4"%char :: ["2"%char] ++ sfx).
  rewrite m_Chr. cbn [one_of Ascii.eqb Bool.eqb orb andb].
  rewrite m_Seq, m_Lit, m_Seq.
  erewrite m_Star_chr_max;
    [reflexivity|by repeat constructor|first [reflexivity|assumption]|].
  rewrite m_Seq, m_Chr. cbn [one_of Ascii.eqb Bool.eqb orb andb].
  rewrite m_Seq, m_Lit, m_Seq.
  erewrite m_Star_chr_max;
    [reflexivity|by repeat constructor|first [reflexivity|assumption]|].
  rewrite m_Group, m_Seq, m_Chr.
  change (is_digit "4") with true. cbn iota.
  erewrite m_Star_chr_max;
    [reflexivity|by repeat constructor|first [reflexivity|assumption]|].
  rewrite (consumed_app _ _ (list_ascii_of_string "Risk Score 42")) by reflexivity.
  rewrite (consumed_app _ _ (list_ascii_of_string "42")) by reflexivity.
  reflexivity.
Qed.

Lemma list_ascii_of_string_app a b :
  list_ascii_of_string (a +:+ b) = list_ascii_of_string a ++ list_ascii_of_string b.
Proof.
  induction a as [|c a IH]; [done|].
  change (String c a +:+ b) with (String c (a +:+ b)). simpl. by rewrite IH.
Qed.

Lemma search_from_skip r : forall p pv s,
  no_match_before r pv p s = true ->
  search_from r pv (p ++ s) = search_from r (last_opt pv p) s.
Proof.
  induction p as [|c p IH]; intros pv s Hno; [reflexivity|].
  simpl in Hno. destruct (match_here r pv (c :: p ++ s)) eqn:Em; [done|].
  simpl. rewrite Em. by apply IH.
Qed.

Lemma search_from_hit r pv s st :
  match_here r pv s = Some st -> search_from r pv s = Some st.
Proof. intros Hm. destruct s; simpl; by rewrite Hm. Qed.

Lemma search_risk_score pre sfx :
  no_match_before risk_score_re None (list_ascii_of_string pre)
    (list_ascii_of_string ("Risk Score 42" +:+ sfx)) = true ->
  starts_with_class is_digit (list_ascii_of_string sfx) = false ->
  option_map (group_or_empty 1) (search risk_score_re (pre +:+ "Risk Score 42" +:+ sfx))
    = Some "42".
Proof.
  intros Hno Hd. unfold search. rewrite list_ascii_of_string_app.
  rewrite search_from_skip by done. rewrite list_ascii_of_string_app.
  by rewrite (search_from_hit _ _ _ _ (risk_here _ _ Hd)).
Qed.

End ReFacts.

(** ** The number pattern finds the first signed decimal token *)

Module NumberFacts.
Import Chars Re Patterns NumberSpec Py ReFacts.

Lemma m_Plus_chr p st k :
  total k ->
  m (Plus (Chr p)) st k = if starts_with_class p (rest st) then k (skip p st) else None.
Proof.
  intros Hk. destruct st as [pv [|c s'] cs]; [done|]. unfold Plus.
  rewrite m_Seq, m_Chr. simpl starts_with_class. destruct (p c) eqn:Hp; [|done].
  change (m (Star (Chr p)) ?st k) with (star_loop (m (Chr p)) (List.length (rest st)) st k).
  rewrite star_chr_greedy by done.
  by rewrite (skip_step p (MState pv (c :: s') cs) c s').
Qed.

Lemma total_m_Plus_None p st k :
  starts_with_class p (rest st) = false -> m (Plus (Chr p)) st k = None.
Proof.
  intros Hs. destruct st as [pv [|c s'] cs]; [done|]. unfold Plus.
  rewrite m_Seq, m_Chr. simpl in Hs. by rewrite Hs.
Qed.

Lemma m_fraction st k :
  total k ->
  m frac_re st k = match fraction_end st with Some st1 => k st1 | None => None end.
Proof.
  intros Hk. unfold frac_re, Opt, digit. rewrite m_Seq.
  change (m (Alt ?a ?b) st ?K) with
    (match m a st K with Some res => Some res | None => m b st K end).
  change (m Eps st ?K) with (K st).
  unfold fraction_end. destruct st as [pv [|c s3] cs].
  - done.
  - cbn [rest caps]. change (Lit ".") with (Seq (Chr (Ascii.eqb ".")) Eps).
    rewrite m_Seq, m_Chr. destruct (Ascii.eqb "." c) eqn:Ec.
    + apply Ascii.eqb_eq in Ec as <-. change (m Eps ?st ?K) with (K st).
      rewrite !m_Plus_chr by done. cbn [rest starts_with_class].
      change (is_digit ".") with false. cbn iota.
      destruct (starts_with_class is_digit s3); [|done].
      by destruct (Hk (skip is_digit (MState (Some "."%char) s3 cs))) as [res ->].
    + rewrite m_Plus_chr by done. cbn [rest starts_with_class]. by destruct (is_digit c).
Qed.

Lemma fraction_end_digit st c s' :
  rest st = c :: s' -> is_digit c = true -> fraction_end st = Some (skip is_digit st).
Proof.
  intros Hr Hd. unfold fraction_end. rewrite Hr.
  destruct (Ascii.eqb "." c) eqn:Ec; [|by rewrite Hd].
  apply Ascii.eqb_eq in Ec as <-. done.
Qed.

Lemma star_digits fuel : forall st k,
  total k -> List.length (rest st) <= fuel ->
  star_loop (m (Chr is_digit)) fuel st (fun st1 => m frac_re st1 k) =
    match digits_end st with Some st1 => k st1 | None => None end.
Proof.
  induction fuel as [|f IH]; intros st k Hk Hlen.
  - destruct st as [pv [|c s'] cs]; [|simpl in Hlen; lia]. done.
  - destruct (starts_with_class is_digit (rest st)) eqn:Es.
    + destruct (rest st) as [|c s'] eqn:Er; [done|]. simpl in Es.
      rewrite (star_chr_step _ f st _ c s') by done.
      rewrite IH; [|done|simpl in Hlen |- *; lia].
      unfold digits_end. rewrite Er. cbn [starts_with_class]. rewrite Es.
      rewrite <- (skip_step is_digit st c s') by done.
      destruct (fraction_end (skip is_digit st)) as [st1|] eqn:Ef.
      * by destruct (Hk st1) as [res ->].
      * cbn [rest advance]. destruct (starts_with_class is_digit s') eqn:Es'.
        -- by destruct (Hk (skip is_digit st)) as [res ->].
        -- rewrite m_fraction by done.
           rewrite (fraction_end_digit st c s') by done. done.
    + rewrite star_chr_stop by done. rewrite m_fraction by done.
      unfold digits_end. rewrite Es, skip_stop by done.
      by destruct (fraction_end st).
Qed.

Lemma digits_end_sign st c s' :
  rest st = c :: s' -> one_of "-+" c = true -> digits_end st = None.
Proof.
  intros Hr Hc. unfold digits_end.
  assert (Hd : is_digit c = false).
  { revert Hc. unfold one_of.
    destruct (Ascii.eqb_spec "-" c) as [<-|_]; [done|].
    destruct (Ascii.eqb_spec "+" c) as [<-|_]; done. }
  assert (Hp : Ascii.eqb "." c = false).
  { revert Hc. unfold one_of.
    destruct (Ascii.eqb_spec "-" c) as [<-|_]; [done|].
    destruct (Ascii.eqb_spec "+" c) as [<-|_]; done. }
  rewrite skip_stop by (by rewrite Hr; cbn [starts_with_class]).
  unfold fraction_end. rewrite Hr, Hp, Hd. cbn [starts_with_class]. by rewrite Hd.
Qed.

Lemma m_number st k :
  total k ->
  m number_re st k = match number_end st with Some st1 => k st1 | None => None end.
Proof.
  intros Hk. unfold number_re. cbn [seqs]. fold frac_re. unfold Opt, set, digit.
  rewrite m_Seq.
  change (m (Alt ?a ?b) st ?K) with
    (match m a st K with Some res => Some res | None => m b st K end).
  change (m Eps st ?K) with (K st).
  assert (Hstar : forall st',
    m (Seq (Star (Chr is_digit)) frac_re) st' k =
      match digits_end st' with Some st1 => k st1 | None => None end).
  { intros st'. rewrite m_Seq.
    change (m (Star (Chr is_digit)) st' ?K)
      with (star_loop (m (Chr is_digit)) (List.length (rest st')) st' K).
    by apply star_digits. }
  unfold number_end. destruct st as [pv [|c s'] cs].
  - change (m (Chr ?p) (MState pv [] cs) ?K) with (@None mstate). cbv beta iota.
    rewrite Hstar. done.
  - rewrite m_Chr. cbn [rest]. destruct (one_of "-+" c) eqn:Hc.
    + rewrite !Hstar. unfold advance. cbn [caps].
      destruct (digits_end (MState (Some c) s' cs)) as [st1|].
      * by destruct (Hk st1) as [res ->].
      * by rewrite (digits_end_sign (MState pv (c :: s') cs) c s').
    + by rewrite Hstar.
Qed.

Lemma rest_skip p st : rest (skip p st) = after_run p (rest st).
Proof.
  destruct st as [pv s cs]. unfold skip. cbn [rest prev caps]. revert pv.
  induction s as [|c s IH]; intros pv; [done|]. simpl.
  destruct (p c); [apply IH|done].
Qed.

Lemma run_after_run p s : s = run p s ++ after_run p s.
Proof. induction s as [|c s IH]; [done|]. simpl. destruct (p c); [|done]. simpl. by f_equal. Qed.

Lemma after_run_stops p s : starts_with_class p (after_run p s) = false.
Proof.
  induction s as [|c s IH]; [done|]. simpl. destruct (p c) eqn:Hp; [done|]. simpl. done.
Qed.

Lemma run_nonempty p s : starts_with_class p s = true -> run p s <> [].
Proof. destruct s as [|c s]; [done|]. simpl. by intros ->. Qed.

Lemma run_empty p s : starts_with_class p s = false -> run p s = [].
Proof. destruct s as [|c s]; [done|]. simpl. by intros ->. Qed.

(** The token the specification describes and the text after it make up
    the text. *)
Lemma signed_decimal_at_app s t r : signed_decimal_at s = Some (t, r) -> s = t ++ r.
Proof.
  unfold signed_decimal_at.
  set (sg_s1 := match s with
                | c :: s' => if is_sign c then ([c], s') else ([], s)
                | [] => ([], [])
                end).
  assert (Hs : s = fst sg_s1 ++ snd sg_s1).
  { unfold sg_s1. destruct s as [|c s']; [done|]. by destruct (is_sign c). }
  destruct sg_s1 as [sg s1]. simpl in Hs.
  pose proof (run_after_run is_digit s1) as H1.
  assert (Hint : match run is_digit s1 with
                 | [] => None
                 | _ :: _ => Some (sg ++ run is_digit s1, after_run is_digit s1)
                 end = Some (t, r) -> s = t ++ r).
  { destruct (run is_digit s1) eqn:Er; [done|]. intros [= <- <-].
    rewrite Hs, <- app_assoc. f_equal. exact H1. }
  destruct (after_run is_digit s1) as [|c s3] eqn:E2; [done|].
  destruct (Ascii.eqb c "." && starts_with_class is_digit s3); [|done].
  intros [= <- <-]. rewrite Hs, H1 at 1.
  rewrite (run_after_run is_digit s3) at 1.
  by rewrite <- !app_assoc.
Qed.

Lemma digits_end_spec pv s1 cs sg :
  option_map rest (digits_end (MState pv s1 cs)) =
  option_map snd
    (let int_part := run is_digit s1 in
     let s2 := after_run is_digit s1 in
     let integer :=
       match int_part with
       | [] => None
       | _ :: _ => Some (sg ++ int_part, s2)
       end in
     match s2 with
     | c :: s3 =>
         if Ascii.eqb c "." && starts_with_class is_digit s3
         then Some (sg ++ int_part ++ c :: run is_digit s3, after_run is_digit s3)
         else integer
     | [] => integer
     end).
Proof.
  cbv zeta. unfold digits_end, fraction_end.
  rewrite rest_skip. cbn [rest].
  assert (Hint : option_map rest
            (if starts_with_class is_digit s1 then Some (skip is_digit (MState pv s1 cs)) else None)
          = option_map snd (match run is_digit s1 with
                            | [] => None
                            | _ :: _ => Some (sg ++ run is_digit s1, after_run is_digit s1)
                            end)).
  { destruct (starts_with_class is_digit s1) eqn:Es.
    - apply (run_nonempty is_digit) in Es. destruct (run is_digit s1); [done|].
      cbn [option_map snd]. by rewrite rest_skip.
    - by rewrite (run_empty is_digit s1). }
  pose proof (after_run_stops is_digit s1) as Hstop.
  destruct (after_run is_digit s1) as [|c s3]; [done|].
  simpl in Hstop. rewrite Ascii.eqb_sym.
  destruct (Ascii.eqb c ".") eqn:Ec; cbn [andb].
  - destruct (starts_with_class is_digit s3); [|done].
    cbn [option_map snd]. by rewrite rest_skip.
  - by rewrite Hstop.
Qed.

Lemma number_end_spec pv s cs :
  option_map rest (number_end (MState pv s cs)) = option_map snd (signed_decimal_at s).
Proof.
  unfold number_end, signed_decimal_at. cbn [rest].
  destruct s as [|c s'].
  - done.
  - unfold is_sign. destruct (one_of "-+" c).
    + apply digits_end_spec.
    + apply (digits_end_spec pv (c :: s') cs []).
Qed.

Lemma total_group0 st0 : total (fun st1 => Some (set_cap 0 (consumed st0 st1) st1)).
Proof. intros st. by eexists. Qed.

Lemma match_here_number pv s :
  match signed_decimal_at s with
  | Some (t, r) =>
      exists st, match_here number_re pv s = Some st /\ rest st = r /\
                 group 0 st = Some (string_of_list_ascii t)
  | None => match_here number_re pv s = None
  end.
Proof.
  unfold match_here. rewrite m_Group, m_number by apply total_group0.
  pose proof (number_end_spec pv s []) as Hspec.
  destruct (signed_decimal_at s) as [[t r]|] eqn:Et;
    destruct (number_end (MState pv s [])) as [st1|]; try done.
  simpl in Hspec. injection Hspec as Hr.
  eexists. split; [done|]. split; [done|].
  unfold group. simpl. f_equal. apply consumed_app. simpl.
  rewrite Hr. by apply signed_decimal_at_app.
Qed.

(** The pattern of the source finds the first signed decimal token. *)
Lemma search_number : forall s pv,
  option_map (group_or_empty 0) (search_from number_re pv s) =
  option_map string_of_list_ascii (first_signed_decimal s).
Proof.
  assert (Hhere : forall s pv,
    match signed_decimal_at s with
    | Some (t, _) => option_map (group_or_empty 0) (match_here number_re pv s)
                     = Some (string_of_list_ascii t)
    | None => match_here number_re pv s = None
    end).
  { intros s pv. pose proof (match_here_number pv s) as Hm.
    destruct (signed_decimal_at s) as [[t r]|]; [|done].
    destruct Hm as (st & -> & _ & Hg). simpl. unfold group_or_empty. by rewrite Hg. }
  induction s as [|c s IH]; intros pv.
  - specialize (Hhere [] pv). cbn [search_from first_signed_decimal].
    destruct (signed_decimal_at []) as [[t r]|].
    + by destruct (match_here number_re pv []).
    + by rewrite Hhere.
  - specialize (Hhere (c :: s) pv). cbn [search_from first_signed_decimal].
    destruct (signed_decimal_at (c :: s)) as [[t r]|].
    + by destruct (match_here number_re pv (c :: s)).
    + rewrite Hhere. apply IH.
Qed.

(** A token exists exactly when the text has a digit. *)
Lemma signed_decimal_at_digit c s :
  is_digit c = true -> is_Some (signed_decimal_at (c :: s)).
Proof.
  intros Hd. unfold signed_decimal_at.
  assert (Hs : is_sign c = false).
  { unfold is_sign, one_of.
    destruct (Ascii.eqb_spec "-" c) as [<-|_]; [done|].
    destruct (Ascii.eqb_spec "+" c) as [<-|_]; done. }
  rewrite Hs. simpl run. rewrite Hd. simpl after_run. rewrite Hd.
  destruct (after_run is_digit s) as [|c' s3]; [by eexists|].
  destruct (_ && _); by eexists.
Qed.

Lemma run_digits_none s :
  Forall (fun c => is_digit c = false) s -> starts_with_class is_digit s = false.
Proof. intros [|c s' Hc _]; done. Qed.

Lemma signed_decimal_at_none s :
  Forall (fun c => is_digit c = false) s -> signed_decimal_at s = None.
Proof.
  intros Hall. unfold signed_decimal_at.
  assert (Hgen : forall sg s1, Forall (fun c => is_digit c = false) s1 ->
    (let int_part := run is_digit s1 in
     let s2 := after_run is_digit s1 in
     let integer :=
       match int_part with
       | [] => None
       | _ :: _ => Some (sg ++ int_part, s2)
       end in
     match s2 with
     | c :: s3 =>
         if Ascii.eqb c "." && starts_with_class is_digit s3
         then Some (sg ++ int_part ++ c :: run is_digit s3, after_run is_digit s3)
         else integer
     | [] => integer
     end) = None).
  { intros sg s1 H1. cbv zeta. destruct H1 as [|c s3 Hc H3]; [done|].
    simpl. rewrite Hc. rewrite (run_digits_none s3 H3). by rewrite andb_false_r. }
  destruct Hall as [|c s' Hc Hs']; [done|].
  destruct (is_sign c).
  - by apply Hgen.
  - apply Hgen. by constructor.
Qed.

Lemma first_signed_decimal_none s :
  first_signed_decimal s = None <-> Forall (fun c => is_digit c = false) s.
Proof.
  induction s as [|c s IH].
  - split; [constructor|done].
  - split.
    + intros Hf. simpl in Hf.
      destruct (signed_decimal_at (c :: s)) as [[t r]|] eqn:Et; [done|].
      constructor; [|by apply IH].
      destruct (is_digit c) eqn:Hd; [|done].
      destruct (signed_decimal_at_digit c s Hd) as [x Hx]. congruence.
    + intros Hall. simpl. rewrite (signed_decimal_at_none _ Hall).
      apply IH. by inversion Hall.
Qed.

Lemma extract_number_eq {F} (float : string -> F) (t : string) :
  Advanced.extract_number float (Some t) =
    if nonempty t
    then option_map (fun tok => float (string_of_list_ascii tok))
           (first_signed_decimal (list_ascii_of_string (remove_commas t)))
    else None.
Proof.
  destruct t as [|c t]; [done|]. cbn [nonempty Advanced.extract_number].
  unfold search.
  pose proof (search_number (list_ascii_of_string (remove_commas (String c t))) None) as Hs.
  destruct (search_from number_re None _) as [st|];
    destruct (first_signed_decimal _) as [tok|]; try done.
  simpl in Hs. injection Hs as ->. done.
Qed.

Lemma no_digit_remove_commas t :
  Forall (fun c => is_digit c = false) (list_ascii_of_string (remove_commas t)) <->
  no_digit t.
Proof.
  unfold no_digit. induction t as [|c t IH]; [done|]. simpl.
  destruct (Ascii.eqb_spec c ",") as [->|Hne]; simpl.
  - rewrite IH. split; [by constructor|by inversion 1].
  - rewrite !Forall_cons, IH. done.
Qed.

Lemma run_Forall p s : Forall (fun c => p c = true) (run p s).
Proof.
  induction s as [|c s IH]; simpl; [constructor|].
  destruct (p c) eqn:Hp; by constructor.
Qed.

Lemma digit_not_comma c : is_digit c = true -> Ascii.eqb c "," = false.
Proof. destruct (Ascii.eqb_spec c ",") as [->|_]; done. Qed.

Lemma sign_not_comma c : is_sign c = true -> Ascii.eqb c "," = false.
Proof. destruct (Ascii.eqb_spec c ",") as [->|_]; done. Qed.

Lemma digits_no_comma s :
  Forall (fun c => Ascii.eqb c "," = false) (run is_digit s).
Proof.
  eapply Forall_impl; [apply (run_Forall is_digit)|]. apply digit_not_comma.
Qed.

Lemma signed_decimal_no_comma s t r :
  signed_decimal_at s = Some (t, r) -> Forall (fun c => Ascii.eqb c "," = false) t.
Proof.
  unfold signed_decimal_at.
  set (sg_s1 := match s with
                | c :: s' => if is_sign c then ([c], s') else ([], s)
                | [] => ([], [])
                end).
  assert (Hsg : Forall (fun c => Ascii.eqb c "," = false) (fst sg_s1)).
  { unfold sg_s1. destruct s as [|c s']; [constructor|].
    destruct (is_sign c) eqn:Hc; [|constructor].
    constructor; [by apply sign_not_comma|constructor]. }
  destruct sg_s1 as [sg s1]. simpl in Hsg.
  assert (Hint : match run is_digit s1 with
                 | [] => None
                 | _ :: _ => Some (sg ++ run is_digit s1, after_run is_digit s1)
                 end = Some (t, r) -> Forall (fun c => Ascii.eqb c "," = false) t).
  { pose proof (digits_no_comma s1) as Hd.
    destruct (run is_digit s1); [done|]. intros [= <- _]. by apply Forall_app. }
  destruct (after_run is_digit s1) as [|c s3]; [done|].
  destruct (Ascii.eqb c ".") eqn:Ec; cbn [andb]; [|done].
  destruct (starts_with_class is_digit s3); [|done].
  intros [= <- _]. apply Ascii.eqb_eq in Ec as ->.
  rewrite !Forall_app, Forall_cons. split_and!; [done|apply digits_no_comma|done|apply digits_no_comma].
Qed.

Lemma remove_commas_id s :
  Forall (fun c => Ascii.eqb c "," = false) (list_ascii_of_string s) -> remove_commas s = s.
Proof.
  induction s as [|c s IH]; [done|]. simpl. intros [Hc Hs]%Forall_cons.
  rewrite Hc. by rewrite IH.
Qed.

Lemma is_signed_decimal_at s :
  is_signed_decimal s = true ->
  signed_decimal_at (list_ascii_of_string s) = Some (list_ascii_of_string s, []).
Proof.
  unfold is_signed_decimal.
  destruct (signed_decimal_at (list_ascii_of_string s)) as [[t [|c r]]|] eqn:Et; try done.
  intros _. apply signed_decimal_at_app in Et. rewrite app_nil_r in Et. by rewrite <- Et.
Qed.

Lemma first_signed_decimal_hit s t r :
  signed_decimal_at s = Some (t, r) -> first_signed_decimal s = Some t.
Proof. intros Hat. destruct s; cbn [first_signed_decimal]; by rewrite Hat. Qed.

(** A text that is one signed decimal token is extracted whole. *)
Lemma extract_number_token {F} (float : string -> F) (s : string) :
  is_signed_decimal s = true -> Advanced.extract_number float (Some s) = Some (float s).
Proof.
  intros Hs. pose proof (is_signed_decimal_at s Hs) as Hat.
  rewrite extract_number_eq.
  assert (nonempty s = true) as ->.
  { destruct s; [by vm_compute in Hs|done]. }
  rewrite remove_commas_id by (by eapply signed_decimal_no_comma).
  rewrite (first_signed_decimal_hit _ _ _ Hat). cbn [option_map].
  by rewrite string_of_list_ascii_of_string.
Qed.

End NumberFacts.

(** ** The passes *)

Module ScraperFacts.
Import Chars Re Patterns Py Obs PyFacts ReFacts.
Import Advanced AdvancedFacts.
#[local] Open Scope py_scope.

Lemma take_length n s : String.length (take n s) <= n.
Proof.
  revert s. induction n as [|n IH]; intros [|c s]; simpl; try lia.
  specialize (IH s). lia.
Qed.

Lemma take_prefix n s : exists sfx, s = take n s +:+ sfx.
Proof.
  revert s. induction n as [|n IH]; intros s.
  - exists s. by destruct s.
  - destruct s as [|c s]; [by exists ""|].
    destruct (IH s) as [sfx Hs]. exists sfx.
    change (String c s = String c (take n s +:+ sfx)). by rewrite <- Hs.
Qed.

Lemma apply_patterns_other ps t (d : gmap string string) key :
  key ∉ ps.*1 -> apply_patterns ps t d !! key = d !! key.
Proof.
  revert d. induction ps as [|[k r] ps IH]; intros d Hk; [done|].
  simpl in *. apply not_elem_of_cons in Hk as [Hne Hk].
  rewrite IH by done. destruct (search r t); [|done].
  by rewrite lookup_insert_ne.
Qed.

Lemma apply_patterns_lookup ps t (d : gmap string string) key pattern :
  NoDup ps.*1 -> (key, pattern) ∈ ps ->
  apply_patterns ps t d !! key =
    match search pattern t with
    | Some mt => Some (group_or_empty 1 mt)
    | None => d !! key
    end.
Proof.
  revert d. induction ps as [|[k r] ps IH]; intros d Hnd Hin.
  - by apply elem_of_nil in Hin.
  - simpl in *. apply NoDup_cons in Hnd as [Hk Hnd].
    apply elem_of_cons in Hin as [[= <- <-]|Hin].
    + rewrite apply_patterns_other by done.
      destruct (search pattern t); [by rewrite lookup_insert_eq | done].
    + rewrite IH by done. destruct (search pattern t); [done|].
      destruct (search r t); [|done]. rewrite lookup_insert_ne; [done|].
      intros <-. apply Hk. apply list_elem_of_fmap. by exists (k, pattern).
Qed.

Lemma paired_app_l x s out : paired s out -> paired (x ++ s) out.
Proof.
  intros Hp. destruct Hp as [s|pre a ws sym post out Ha Hne Hws Hlen Hsym Hp].
  - constructor.
  - rewrite app_assoc. by constructor.
Qed.

Lemma chain_paired s sts :
  Chain trade_re s sts ->
  paired s (map (fun st => (group_or_empty 1 st, group_or_empty 2 st)) sts).
Proof.
  induction 1 as [s|pre pv s' st gap s2 sts Hm Hrest _ IH]; simpl; [constructor|].
  apply trade_match in Hm as (a & ws & sym & Ha & Hne & Hws & Hlen & Hsym & -> & H1 & H2).
  unfold group_or_empty. rewrite H1, H2. constructor; try done.
  rewrite Hrest. by apply paired_app_l.
Qed.

Lemma findall2_trades_paired t : paired (list_ascii_of_string t) (findall2 trade_re t).
Proof. unfold findall2, finditer. apply chain_paired, finditer_from_chain. Qed.

Lemma length_string_of_list_ascii l :
  String.length (string_of_list_ascii l) = List.length l.
Proof. induction l as [|c l IH]; simpl; [done|]. by rewrite IH. Qed.


Lemma paired_shape s out : paired s out -> Forall (fun p => trade_shape (fst p) (snd p)) out.
Proof.
  induction 1 as [s|pre a ws sym post out Ha Hne Hws Hlen Hsym _ IH]; constructor; [|done].
  unfold trade_shape. simpl.
  by rewrite length_string_of_list_ascii, list_ascii_of_string_of_list_ascii.
Qed.

Lemma findall1_instruments src x :
  x ∈ findall1 instrument_re src -> instrument_in src x.
Proof.
  unfold findall1, finditer. intros Hin.
  apply list_elem_of_fmap in Hin as (st & -> & Hin).
  eapply chain_elem in Hin as (pre & pv & s' & Hs & Hm); [|apply finditer_from_chain].
  apply instrument_match in Hm as (sym & Hlen & Hsym & -> & Hg).
  unfold group_or_empty. rewrite Hg. unfold instrument_in.
  rewrite length_string_of_list_ascii, list_ascii_of_string_of_list_ascii.
  split_and!; [lia|lia|done|]. exists pre, (rest st). by rewrite Hs.
Qed.

Lemma encounter_order_elem xs : forall seen x,
  x ∈ encounter_order seen xs <-> x ∈ xs /\ x ∉ seen.
Proof.
  induction xs as [|y xs IH]; intros seen x; simpl.
  - split; [by intros ?%elem_of_nil | by intros [?%elem_of_nil _]].
  - case_bool_decide as Hy.
    + rewrite IH, elem_of_cons. split; [by intros [Hx Hn]; eauto|].
      intros [[->|Hx] Hn]; [done|by split].
    + rewrite !elem_of_cons, IH, not_elem_of_cons. split.
      * intros [->|(Hx & Hne & Hn)]; by eauto.
      * intros [[->|Hx] Hn]; [by left|].
        destruct (decide (x = y)) as [->|Hne]; [by left|right; by eauto].
Qed.

Lemma encounter_order_NoDup xs : forall seen, NoDup (encounter_order seen xs).
Proof.
  induction xs as [|y xs IH]; intros seen; simpl; [constructor|].
  case_bool_decide as Hy; [apply IH|]. constructor; [|apply IH].
  rewrite encounter_order_elem. intros [_ Hn]. apply Hn. by left.
Qed.

Lemma enumerates_length list_of_set xs :
  enumerates list_of_set -> List.length (list_of_set xs) = List.length (encounter_order [] xs).
Proof.
  intros Hen. destruct (Hen xs) as [Hnd Hel].
  apply Permutation_length, NoDup_Permutation; [done|apply encounter_order_NoDup|].
  intros x. rewrite Hel, encounter_order_elem. split; [|by intros []].
  intros Hx. split; [done|]. by intros ?%elem_of_nil.
Qed.

Lemma enumerates_constant list_of_set a xs :
  enumerates list_of_set -> a ∈ xs -> (forall x, x ∈ xs -> x = a) -> list_of_set xs = [a].
Proof.
  intros Hen Ha Hall. destruct (Hen xs) as [Hnd Hel].
  destruct (list_of_set xs) as [|b [|c l]].
  - exfalso. eapply elem_of_nil. by apply Hel.
  - f_equal. apply Hall, Hel. by left.
  - exfalso. apply NoDup_cons in Hnd as [Hbc _]. apply Hbc.
    rewrite (Hall b), (Hall c); [by left|apply Hel..].
    + right. by left.
    + by left.
Qed.

Lemma enumerates_encounter_order : enumerates (encounter_order []).
Proof.
  intros xs. split; [apply encounter_order_NoDup|].
  intros x. rewrite encounter_order_elem. split; [by intros []|].
  intros Hx. split; [done|]. by intros ?%elem_of_nil.
Qed.

Lemma enumerates_reverse_encounter_order :
  enumerates (fun xs => reverse (encounter_order [] xs)).
Proof.
  intros xs. destruct (enumerates_encounter_order xs) as [Hnd Hel]. split.
  - by rewrite reverse_Permutation.
  - intros x. by rewrite elem_of_reverse.
Qed.

Section Facts.
Context {S E : Type} `{Session S E}.
#[local] Abbreviation M := (M S E).
Context (list_of_set : list string -> list string).

Lemma get_profile_info_rules (w : world S E) :
  exists d, get_profile_info w = (Ok d, w) /\
    forall key pattern, (key, pattern) ∈ profile_patterns ->
      d !! key = rule_value pattern (fst (element_text (TAG_NAME, "body") w)).
Proof.
  unfold get_profile_info. cbn [try_block].
  unfold try_except, bind, element_text, ret, swallow, raise.
  destruct (find_element (TAG_NAME, "body") (sess w)) as [el|e]; cbn [fst].
  2: { eexists; split; [reflexivity|]. by intros. }
  destruct (text el (sess w)) as [t|e]; cbn [fst].
  2: { eexists; split; [reflexivity|]. by intros. }
  assert (Hlk : forall key pattern, (key, pattern) ∈ profile_patterns ->
            key <> "name" /\
            apply_patterns profile_patterns t ∅ !! key = rule_value pattern (Ok t)).
  { intros key pattern Hin. split.
    - intros ->. apply (list_elem_of_fmap_2 fst) in Hin. revert Hin.
      by_compute.
    - rewrite (apply_patterns_lookup _ _ _ _ pattern); [|by_compute|done].
      unfold rule_value. by destruct (search pattern t). }
  destruct (find_element (TAG_NAME, "h1") (sess w)) as [h1|e].
  2: { eexists; split; [reflexivity|]. intros. by apply Hlk. }
  destruct (text h1 (sess w)) as [title|e].
  2: { eexists; split; [reflexivity|]. intros. by apply Hlk. }
  eexists; split; [reflexivity|]. intros key pattern Hin.
  destruct (Hlk _ _ Hin) as [Hne <-]. by rewrite lookup_insert_ne.
Qed.

Lemma get_open_trades_eq (w : world S E) :
  get_open_trades w =
    (Ok (match fst (element_text (TAG_NAME, "body") w) with
         | Ok t => map (fun '(a, sym) => Trade a sym) (findall2 trade_re t)
         | Raise _ => []
         end), w).
Proof.
  unfold get_open_trades. cbn [try_block]. unfold bind, element_text, ret, swallow.
  destruct (find_element (TAG_NAME, "body") (sess w)) as [el|e]; cbn [fst]; [|done].
  by destruct (text el (sess w)).
Qed.

Lemma get_portfolio_data_eq (w w1 : world S E) src :
  open_section "portfolio" 3 w = (Ok tt, w1) ->
  page_source (sess w1) = Ok src ->
  get_portfolio_data list_of_set w =
    (Ok (firstn 50 (list_of_set (findall1 instrument_re src))), w1).
Proof.
  intros Hnav Hsrc. unfold get_portfolio_data. cbn [try_block].
  unfold bind at 1. rewrite Hnav. unfold bind, query, ret. by rewrite Hsrc.
Qed.

Lemma click_first_tab_skip label settle (w : world S E) pre tabs :
  passed_over label w pre ->
  click_first_tab label settle (pre ++ tabs) w = click_first_tab label settle tabs w.
Proof.
  induction 1 as [|e pre (t & Ht & Hc) _ IH]; [done|].
  simpl. unfold bind at 1, query. rewrite Ht, Hc. exact IH.
Qed.

Lemma click_first_tab_none label settle (w : world S E) pre :
  passed_over label w pre -> click_first_tab label settle pre w = (Ok tt, w).
Proof.
  intros Hpre. rewrite <- (app_nil_r pre) at 1. by rewrite click_first_tab_skip.
Qed.

Lemma open_section_none label settle (w : world S E) tabs :
  find_elements (TAG_NAME, "button") (sess w) = Ok tabs ->
  passed_over label w tabs -> open_section label settle w = (Ok tt, w).
Proof.
  intros Htabs Hpre. unfold open_section, bind at 1, query. rewrite Htabs.
  by apply click_first_tab_none.
Qed.

Lemma bind_ok {A B} (c : M A) (f : A -> M B) w b w' :
  bind c f w = (Ok b, w') -> exists a w1, c w = (Ok a, w1) /\ f a w1 = (Ok b, w').
Proof.
  unfold bind. destruct (c w) as [[a|e] w1]; [by eauto | done].
Qed.

Lemma start_driver_ok (w w1 : world S E) :
  start_driver w = (Ok tt, w1) ->
  has_driver w1 = true /\ quits (trace w1) = quits (trace w).
Proof.
  intros Hs. split; [|by apply (quiet_start_driver _ _ _ Hs)].
  revert Hs. unfold start_driver.
  destruct (new_chrome (sess w)) as [[[]|e] s1]; [|done].
  destruct (hide_webdriver s1) as [r1 s2]. by intros [= _ <-].
Qed.

Lemma close_driver_started (w : world S E) :
  has_driver w = true ->
  close_driver w = (fst (quit (sess w)), World (snd (quit (sess w))) true (trace w ++ [EvQuit])).
Proof.
  intros Hd. unfold close_driver, Py.action. rewrite Hd. by destruct (quit (sess w)).
Qed.

Lemma scrape_investor_with_outcome
    (p_profile : M (gmap string string))
    (p_stats : M (gmap string (gmap string string)))
    (p_portfolio p_history : M (list Basic.item))
    (user : string) (w w3 : world S E) :
  quiet p_profile -> quiet p_stats -> quiet p_portfolio -> quiet p_history ->
  (start_driver ;; driver_get ("https://www.etoro.com/people/" +:+ user) ;; time_sleep 5) w
    = (Ok tt, w3) ->
  let r0 := Basic.InvestorData user ("https://www.etoro.com/people/" +:+ user)
              (now_isoformat (sess w3)) ∅ ∅ [] [] None in
  exists r wb,
    Basic.scrape_investor_with p_profile p_stats p_portfolio p_history user w =
      (match fst (quit (sess wb)) with Ok _ => Ok r | Raise e => Raise e end,
       World (snd (quit (sess wb))) true (trace wb ++ [EvQuit])) /\
    quits (trace wb ++ [EvQuit]) = quits (trace w) + 1 /\
    (safe p_profile -> safe p_stats -> safe p_portfolio -> safe p_history ->
     Basic.error r = None) /\
    match p_profile w3 with
    | (Raise e, w4) => wb = w4 /\ r = Basic.set_error (str_exn e) r0
    | (Ok v1, w4) =>
      match p_stats w4 with
      | (Raise e, w5) => wb = w5 /\ r = Basic.set_error (str_exn e) (Basic.set_profile v1 r0)
      | (Ok v2, w5) =>
        match p_portfolio w5 with
        | (Raise e, w6) =>
            wb = w6 /\ r = Basic.set_error (str_exn e) (Basic.set_stats v2 (Basic.set_profile v1 r0))
        | (Ok v3, w6) =>
          match p_history w6 with
          | (Raise e, w7) =>
              wb = w7 /\
              r = Basic.set_error (str_exn e) (Basic.set_portfolio v3 (Basic.set_stats v2 (Basic.set_profile v1 r0)))
          | (Ok v4, w7) =>
              wb = w7 /\
              r = Basic.set_trade_history v4 (Basic.set_portfolio v3 (Basic.set_stats v2 (Basic.set_profile v1 r0)))
          end
        end
      end
    end.
Proof.
  intros Q1 Q2 Q3 Q4 Hpre r0.
  apply bind_ok in Hpre as ([] & w1 & Hstart & Hpre).
  apply bind_ok in Hpre as ([] & w2 & Hget & Hsleep).
  destruct (start_driver_ok _ _ Hstart) as [Hd1 Hq1].
  destruct (quiet_driver_get _ _ _ _ Hget) as [Hd2 Hq2].
  destruct (quiet_time_sleep _ _ _ _ Hsleep) as [Hd3 Hq3].
  unfold Basic.scrape_investor_with.
  unfold bind at 1. rewrite Hstart. unfold bind at 1. rewrite Hget.
  unfold bind at 1. rewrite Hsleep. unfold bind at 1, datetime_now.
  unfold try_finally. cbn [try_block]. fold r0.
  assert (Hclose : forall (wb : world S E) (r : Basic.investor_data),
    has_driver wb = true -> quits (trace wb) = quits (trace w) ->
    (let (r1, w'') := close_driver wb in
     match r1 with
     | Ok _ => (Ok r : result Basic.investor_data, w'')
     | Raise e => (Raise e, w'')
     end) =
      (match fst (quit (sess wb)) with Ok _ => Ok r | Raise e => Raise e end,
       World (snd (quit (sess wb))) true (trace wb ++ [EvQuit])) /\
    quits (trace wb ++ [EvQuit]) = quits (trace w) + 1).
  { intros wb r Hd Hq. rewrite close_driver_started by done. cbn [fst snd].
    rewrite quits_snoc, Hq. cbn [is_quit]. split; [|done].
    by destruct (quit (sess wb)) as [[[]|e] s']. }
  unfold bind at 1.
  destruct (p_profile w3) as [[v1|e] w4] eqn:E1;
    destruct (Q1 _ _ _ E1) as [Hd4 Hq4].
  2: { exists (Basic.set_error (str_exn e) r0), w4. unfold ret.
       destruct (Hclose w4 (Basic.set_error (str_exn e) r0)) as [-> ->]; [congruence..|].
       split_and!; try done. intros [_ T1] _ _ _.
       destruct (T1 w3) as (? & ? & ?); congruence. }
  unfold ret at 1. unfold bind at 1.
  destruct (p_stats w4) as [[v2|e] w5] eqn:E2;
    destruct (Q2 _ _ _ E2) as [Hd5 Hq5].
  2: { eexists _, w5. unfold ret.
       destruct (Hclose w5 (Basic.set_error (str_exn e) (Basic.set_profile v1 r0))) as [-> ->];
         [congruence..|].
       split_and!; try done. intros _ [_ T2] _ _.
       destruct (T2 w4) as (? & ? & ?); congruence. }
  unfold ret at 1. unfold bind at 1.
  destruct (p_portfolio w5) as [[v3|e] w6] eqn:E3;
    destruct (Q3 _ _ _ E3) as [Hd6 Hq6].
  2: { eexists _, w6. unfold ret.
       destruct (Hclose w6 (Basic.set_error (str_exn e) (Basic.set_stats v2 (Basic.set_profile v1 r0))))
         as [-> ->]; [congruence..|].
       split_and!; try done. intros _ _ [_ T3] _.
       destruct (T3 w5) as (? & ? & ?); congruence. }
  unfold ret at 1. unfold bind at 1.
  destruct (p_history w6) as [[v4|e] w7] eqn:E4;
    destruct (Q4 _ _ _ E4) as [Hd7 Hq7].
  2: { eexists _, w7. unfold ret.
       destruct (Hclose w7 (Basic.set_error (str_exn e)
                   (Basic.set_portfolio v3 (Basic.set_stats v2 (Basic.set_profile v1 r0)))))
         as [-> ->]; [congruence..|].
       split_and!; try done. intros _ _ _ [_ T4].
       destruct (T4 w6) as (? & ? & ?); congruence. }
  eexists _, w7. unfold ret.
  destruct (Hclose w7 (Basic.set_trade_history v4
              (Basic.set_portfolio v3 (Basic.set_stats v2 (Basic.set_profile v1 r0)))))
    as [-> ->]; [congruence..|done].
Qed.

Ltac run_safe lem :=
  let a := fresh "v" in let w' := fresh "w" in let Eq := fresh "Eq" in
  let Hd := fresh "Hd" in let Hq := fresh "Hq" in
  match goal with
  | |- context [bind ?c _ ?w0] =>
      destruct (proj2 lem w0) as (a & w' & Eq);
      destruct (proj1 lem _ _ _ Eq) as [Hd Hq];
      unfold bind at 1; rewrite Eq
  end.

Lemma scrape_investor_complete_outcome creds (user : string) (w w2 : world S E) :
  (start_driver ;;
   (match creds with
    | Some _ => _ <- login creds ;; ret tt
    | None => ret tt
    end) ;;
   driver_get ("https://www.etoro.com/people/" +:+ user)) w = (Ok tt, w2) ->
  exists r wb,
    scrape_investor_complete list_of_set creds user w =
      (match fst (quit (sess wb)) with Ok _ => Ok r | Raise e => Raise e end,
       World (snd (quit (sess wb))) true (trace wb ++ [EvQuit])) /\
    quits (trace wb ++ [EvQuit]) = quits (trace w) + 1 /\
    username r = user /\
    profile_url r = "https://www.etoro.com/people/" +:+ user.
Proof.
  intros Hpre.
  apply bind_ok in Hpre as ([] & w1 & Hstart & Hpre).
  apply bind_ok in Hpre as ([] & w1' & Hlogin & Hget).
  destruct (start_driver_ok _ _ Hstart) as [Hd1 Hq1].
  assert (has_driver w1' = has_driver w1 /\ quits (trace w1') = quits (trace w1)) as [Hd1' Hq1'].
  { revert Hlogin. destruct creds as [c|].
    - intros Hl. apply bind_ok in Hl as (b & w0 & Hl & [= <-]).
      exact (quiet_login _ _ _ _ Hl).
    - by intros [= <-]. }
  destruct (quiet_driver_get _ _ _ _ Hget) as [Hd2 Hq2].
  unfold scrape_investor_complete.
  unfold bind at 1. rewrite Hstart. unfold bind at 1. rewrite Hlogin.
  unfold bind at 1. rewrite Hget.
  run_safe (safe_time_sleep (S:=S) (E:=E) 5).
  run_safe safe_accept_cookies. run_safe (safe_datetime_now (S:=S) (E:=E)).
  run_safe (safe_get_profile_info (S:=S) (E:=E)).
  run_safe (safe_get_performance_stats (S:=S) (E:=E)).
  run_safe (safe_get_trading_stats (S:=S) (E:=E)).
  run_safe (safe_get_portfolio_data (S:=S) (E:=E) list_of_set).
  run_safe (safe_get_open_trades (S:=S) (E:=E)).
  run_safe (safe_get_trade_history (S:=S) (E:=E)).
  run_safe (safe_get_raw_data (S:=S) (E:=E)).
  unfold bind at 1. rewrite close_driver_started by congruence.
  match goal with
  | |- context [quit (sess ?wb)] =>
      match goal with |- context [ret ?R] => exists R, wb end
  end.
  split_and!; [|rewrite quits_snoc; cbn [is_quit]; congruence|done..].
  cbn [fst snd]. unfold ret. by destruct (quit (sess _)) as [[[]|e] s'].
Qed.

End Facts.
End ScraperFacts.

(** ** The trade pattern reads the trades off the text from left to right *)

Module TradeFacts.
Import Chars Re Patterns NumberSpec TradeSpec ReFacts NumberFacts ScraperFacts.

Lemma has_prefix_app w : forall s, has_prefix w s = true -> s = w ++ skipn (List.length w) s.
Proof.
  induction w as [|a w IH]; intros s; [done|]. destruct s as [|b s]; [done|]. simpl.
  intros [Hab Hw]%andb_prop. apply Ascii.eqb_eq in Hab as ->. f_equal. by apply IH.
Qed.

Lemma has_prefix_refl w s : has_prefix w (w ++ s) = true.
Proof. induction w as [|a w IH]; [done|]. simpl. by rewrite Ascii.eqb_refl. Qed.

Lemma m_Lit_fail lit : forall pv s cs k,
  has_prefix (list_ascii_of_string lit) s = false ->
  m (Lit lit) (MState pv s cs) k = None.
Proof.
  induction lit as [|a lit IH]; intros pv s cs k; [done|].
  destruct s as [|b s]; [done|]. cbn [list_ascii_of_string has_prefix Lit].
  rewrite m_Seq, m_Chr. destruct (Ascii.eqb a b); [|done]. cbn [andb]. apply IH.
Qed.

Lemma space_not_upper c : is_space c = true -> is_upper_AZ c = false.
Proof. destruct c as [[] [] [] [] [] [] [] []]; by vm_compute. Qed.

(** The star over a class takes the whole run when what follows the
    star cannot start with a character of the class. *)
Lemma star_chr_last p k :
  (forall st, starts_with_class p (rest st) = true -> k st = None) ->
  forall fuel st, List.length (rest st) <= fuel ->
  star_loop (m (Chr p)) fuel st k = k (skip p st).
Proof.
  intros Hk. induction fuel as [|f IH]; intros st Hlen.
  - destruct (rest st) eqn:Er; [|simpl in Hlen; lia]. simpl.
    rewrite skip_stop; [done|by rewrite Er].
  - destruct (starts_with_class p (rest st)) eqn:Es.
    + destruct (rest st) as [|c s'] eqn:Er; [done|]. simpl in Es.
      rewrite (star_chr_step p f st k c s') by done.
      rewrite IH by (simpl in *; lia). rewrite <- (skip_step p st c s') by done.
      destruct (k (skip p st)) eqn:Ek; [done|]. apply Hk. by rewrite Er.
    + by rewrite star_chr_stop, skip_stop.
Qed.

Lemma rep_may_greedy p k :
  total k -> forall n st, rep_may (m (Chr p)) n st k = k (skip_upto n p st).
Proof.
  intros Hk. induction n as [|n IH]; intros st; [done|].
  destruct st as [pv [|c s'] cs]; [done|].
  cbn [rep_may skip_upto rest]. rewrite m_Chr. destruct (p c); [|done].
  rewrite IH. unfold advance. cbn [caps].
  by destruct (Hk (skip_upto n p (MState (Some c) s' cs))) as [res ->].
Qed.

Lemma m_Rep_1_5 p st k :
  total k ->
  m (Rep (Chr p) 1 5) st k =
    if starts_with_class p (rest st) then k (skip_upto 5 p st) else None.
Proof.
  intros Hk. destruct st as [pv [|c s'] cs]; [done|].
  change (m (Rep (Chr p) 1 5) ?st k)
    with (m (Chr p) st (fun st' => rep_may (m (Chr p)) 4 st' k)).
  rewrite m_Chr. cbn [rest starts_with_class skip_upto]. unfold advance. cbn [caps].
  destruct (p c) eqn:Hp; [|done]. by rewrite rep_may_greedy.
Qed.

Lemma skip_upto_caps p : forall n st, caps (skip_upto n p st) = caps st.
Proof.
  induction n as [|n IH]; intros st; [done|].
  destruct st as [pv [|c s'] cs]; [done|]. cbn [skip_upto rest].
  destruct (p c); [|done]. by rewrite IH.
Qed.

Lemma skip_upto_rest p : forall n st,
  rest st = run_upto n p (rest st) ++ rest (skip_upto n p st).
Proof.
  induction n as [|n IH]; intros st; [done|].
  destruct st as [pv [|c s'] cs]; [done|]. cbn [skip_upto run_upto rest].
  destruct (p c); [|done]. cbn [app]. f_equal. apply (IH (advance c s' (MState pv (c :: s') cs))).
Qed.

Lemma skip_caps p st : caps (skip p st) = caps st.
Proof. done. Qed.

Lemma run_upto_Forall p : forall n s, Forall (fun c => p c = true) (run_upto n p s).
Proof.
  induction n as [|n IH]; intros [|c s]; simpl; try constructor.
  destruct (p c) eqn:Hp; by constructor.
Qed.

Lemma run_upto_length p : forall n s, List.length (run_upto n p s) <= n.
Proof.
  induction n as [|n IH]; intros [|c s]; simpl; try lia.
  destruct (p c); simpl; [|lia]. specialize (IH s). lia.
Qed.

Lemma run_upto_nonempty p n s :
  starts_with_class p s = true -> run_upto (S n) p s <> [].
Proof. destruct s as [|c s]; [done|]. simpl. by intros ->. Qed.

Lemma run_upto_empty p n s : starts_with_class p s = false -> run_upto n p s = [].
Proof. destruct n, s as [|c s]; try done. simpl. by intros ->. Qed.

(** The end of the trade pattern: [\s+([A-Z]{1,5})]. *)
Lemma m_trade_tail st k :
  total k ->
  m (Seq (Plus space) (Group 2 (Rep (Chr is_upper_AZ) 1 5))) st k =
    if starts_with_class is_space (rest st)
    then if starts_with_class is_upper_AZ (rest (skip is_space st))
         then k (set_cap 2 (consumed (skip is_space st)
                              (skip_upto 5 is_upper_AZ (skip is_space st)))
                   (skip_upto 5 is_upper_AZ (skip is_space st)))
         else None
    else None.
Proof.
  intros Hk.
  assert (Hk2 : forall st2, total (fun st3 => k (set_cap 2 (consumed st2 st3) st3))).
  { intros st2 st3. apply Hk. }
  destruct st as [pv [|c s'] cs]; [done|]. unfold Plus, space.
  rewrite !m_Seq, m_Chr. cbn [rest starts_with_class].
  destruct (is_space c) eqn:Hc; [|done].
  change (m (Star (Chr ?p)) ?st ?K) with (star_loop (m (Chr p)) (List.length (rest st)) st K).
  rewrite star_chr_last; [| |done].
  - rewrite (skip_step is_space (MState pv (c :: s') cs) c s') by done.
    rewrite m_Group, m_Rep_1_5 by apply Hk2. done.
  - intros st Hs. rewrite m_Group, m_Rep_1_5 by apply Hk2.
    destruct (rest st) as [|c1 s1]; [done|]. cbn [starts_with_class] in *.
    by rewrite space_not_upper.
Qed.

(** The trade pattern behind an action token that has been read. *)
Lemma m_trade_action (a : string) pv s1 :
  a <> "" ->
  let st0 := MState pv (list_ascii_of_string a ++ s1) [] in
  let X := m (Lit a) st0 (fun st1 =>
             m (Seq (Plus space) (Group 2 (Rep (Chr is_upper_AZ) 1 5)))
               (set_cap 1 (consumed st0 st1) st1)
               (fun st3 => Some (set_cap 0 (consumed st0 st3) st3))) in
  match run is_space s1, run_upto 5 is_upper_AZ (after_run is_space s1) with
  | _ :: _, _ :: _ =>
      exists st,
        X = Some st /\
        after_run is_space s1 =
          run_upto 5 is_upper_AZ (after_run is_space s1) ++ rest st /\
        group_or_empty 1 st = a /\
        group_or_empty 2 st =
          string_of_list_ascii (run_upto 5 is_upper_AZ (after_run is_space s1)) /\
        group_or_empty 0 st <> ""
  | _, _ => X = None
  end.
Proof.
  intros Ha st0 X. subst X st0. rewrite m_Lit.
  rewrite m_trade_tail by apply total_group0. cbn [rest set_cap].
  destruct (starts_with_class is_space s1) eqn:Es.
  2: { by rewrite run_empty by done. }
  pose proof (run_nonempty _ _ Es) as Hrun.
  destruct (run is_space s1) as [|c0 ws] eqn:Er; [done|]. clear Hrun.
  rewrite rest_skip. cbn [rest set_cap].
  destruct (starts_with_class is_upper_AZ (after_run is_space s1)) eqn:Eu.
  2: { by rewrite run_upto_empty by done. }
  pose proof (run_upto_nonempty _ 4 _ Eu) as Hsym.
  destruct (run_upto 5 is_upper_AZ (after_run is_space s1)) as [|c1 sym] eqn:Esym; [done|].
  clear Hsym. eexists. split; [reflexivity|].
  set (st1 := MState (last_opt pv (list_ascii_of_string a)) s1 
                [(1, consumed (MState pv (list_ascii_of_string a ++ s1) [])
                       (MState (last_opt pv (list_ascii_of_string a)) s1 []))]).
  set (st2 := skip is_space st1).
  set (st3 := skip_upto 5 is_upper_AZ st2).
  assert (H2 : rest st2 = after_run is_space s1) by apply rest_skip.
  assert (H3 : rest st2 = (c1 :: sym) ++ rest st3).
  { rewrite <- Esym, <- H2. apply skip_upto_rest. }
  cbn [rest set_cap]. split_and!.
  - by rewrite <- H2.
  - unfold group_or_empty, group. cbn [caps set_cap lookup_cap Nat.eqb].
    subst st3 st2. rewrite skip_upto_caps, skip_caps. subst st1. cbn [caps lookup_cap Nat.eqb].
    rewrite (consumed_app _ _ (list_ascii_of_string a)) by done.
    apply string_of_list_ascii_of_string.
  - unfold group_or_empty, group. cbn [caps set_cap lookup_cap Nat.eqb].
    by rewrite (consumed_app _ _ (c1 :: sym)).
  - unfold group_or_empty, group. cbn [caps set_cap lookup_cap Nat.eqb].
    rewrite (consumed_app _ _ (list_ascii_of_string a ++ (c0 :: ws) ++ c1 :: sym)).
    + destruct a as [|ca a]; [done|]. done.
    + cbn [rest]. rewrite <- !app_assoc. f_equal.
      rewrite (run_after_run is_space s1) at 1. rewrite Er. f_equal.
      by rewrite <- H2.
Qed.


(** The trade pattern at a position finds the trade that stands there. *)
Lemma match_here_trade pv s :
  match trade_at s with
  | Some (a, sym, behind) =>
      exists st w,
        match_here trade_re pv s = Some st /\ rest st = behind /\
        w <> [] /\ s = w ++ behind /\
        group_or_empty 1 st = a /\ group_or_empty 2 st = sym /\
        group_or_empty 0 st <> ""
  | None => match_here trade_re pv s = None
  end.
Proof.
  unfold match_here, trade_re. cbn [seqs]. rewrite m_Group, m_Seq, m_Group.
  change (m (Alt ?a ?b) ?st ?K) with
    (match m a st K with Some res => Some res | None => m b st K end).
  unfold trade_at, action_at.
  assert (Hstep : forall a : string, a <> "" ->
    has_prefix (list_ascii_of_string a) s = true ->
    let X := m (Lit a) (MState pv s []) (fun st1 =>
               m (Seq (Plus space) (Group 2 (Rep (Chr is_upper_AZ) 1 5)))
                 (set_cap 1 (consumed (MState pv s []) st1) st1)
                 (fun st3 => Some (set_cap 0 (consumed (MState pv s []) st3) st3))) in
    let s1 := skipn (String.length a) s in
    let s2 := after_run is_space s1 in
    let sym := run_upto 5 is_upper_AZ s2 in
    match run is_space s1, sym with
    | _ :: _, _ :: _ =>
        exists st w,
          X = Some st /\ rest st = skipn (List.length sym) s2 /\
          w <> [] /\ s = w ++ skipn (List.length sym) s2 /\
          group_or_empty 1 st = a /\ group_or_empty 2 st = string_of_list_ascii sym /\
          group_or_empty 0 st <> ""
    | _, _ => X = None
    end).
  { intros a Ha Hp X s1 s2 sym. subst X.
    apply has_prefix_app in Hp.
    assert (Hlen : String.length a = List.length (list_ascii_of_string a)).
    { by rewrite <- (length_string_of_list_ascii (list_ascii_of_string a)),
                 string_of_list_ascii_of_string. }
    assert (Hs : s = list_ascii_of_string a ++ s1) by (subst s1; by rewrite Hlen).
    clearbody s1. subst s.
    pose proof (m_trade_action a pv s1 Ha) as Hm. cbv zeta in Hm.
    subst sym s2.
    destruct (run is_space s1) as [|c0 ws] eqn:Er; [done|].
    destruct (run_upto 5 is_upper_AZ (after_run is_space s1)) as [|c1 sym] eqn:Esym; [done|].
    destruct Hm as (st & HX & Hrest & H1 & H2 & H0).
    assert (Hb : skipn (List.length (c1 :: sym)) (after_run is_space s1) = rest st).
    { rewrite Hrest at 1. by rewrite drop_app_length. }
    exists st, (list_ascii_of_string a ++ (c0 :: ws) ++ c1 :: sym).
    rewrite Hb. split_and!; try done.
    - by destruct (list_ascii_of_string a).
    - rewrite <- !app_assoc. f_equal. rewrite (run_after_run is_space s1) at 1.
      rewrite Er. f_equal. done. }
  destruct (has_prefix (list_ascii_of_string "BUY") s) eqn:Eb.
  - specialize (Hstep "BUY" ltac:(done) Eb). cbv zeta in Hstep.
    assert (Hsell : has_prefix (list_ascii_of_string "SELL") s = false).
    { apply has_prefix_app in Eb. rewrite Eb. done. }
    destruct (run is_space _) as [|c0 ws].
    { rewrite Hstep. by apply m_Lit_fail. }
    destruct (run_upto 5 is_upper_AZ _) as [|c1 sym].
    { rewrite Hstep. by apply m_Lit_fail. }
    destruct Hstep as (st & w & -> & Hr). by exists st, w.
  - rewrite m_Lit_fail by done.
    destruct (has_prefix (list_ascii_of_string "SELL") s) eqn:Es.
    + specialize (Hstep "SELL" ltac:(done) Es). cbv zeta in Hstep.
      destruct (run is_space _) as [|c0 ws]; [done|].
      destruct (run_upto 5 is_upper_AZ _) as [|c1 sym]; [done|].
      done.
    + by apply m_Lit_fail.
Qed.

Lemma pair_tokens_skip : forall mid behind,
  pair_tokens (List.length mid) (mid ++ behind) = pair_tokens 0 behind.
Proof.
  induction mid as [|c mid IH]; intros behind; [done|]. simpl. apply IH.
Qed.

Lemma pair_tokens_0 s :
  pair_tokens 0 s =
    match s with
    | [] => []
    | _ :: _ =>
        match trade_at s with
        | Some (a, sym, behind) => (a, sym) :: pair_tokens 0 behind
        | None => pair_tokens 0 (tail s)
        end
    end.
Proof.
  destruct s as [|c s']; [done|]. cbn [pair_tokens tail].
  pose proof (match_here_trade None (c :: s')) as Hm.
  destruct (trade_at (c :: s')) as [[[a sym] behind]|]; [|done].
  destruct Hm as (st & w & _ & _ & Hw & Hs & _). f_equal.
  destruct w as [|c' mid]; [done|]. injection Hs as -> ->.
  rewrite length_app. 
  replace (List.length mid + List.length behind - List.length behind) with (List.length mid) by lia.
  apply pair_tokens_skip.
Qed.

Lemma trade_at_nil : trade_at [] = None.
Proof. done. Qed.

(** The first match of the trade pattern is the first trade of the text. *)
Lemma search_from_trade : forall s pv,
  match search_from trade_re pv s with
  | Some st =>
      group_or_empty 0 st <> "" /\ List.length (rest st) < List.length s /\
      pair_tokens 0 s =
        (group_or_empty 1 st, group_or_empty 2 st) :: pair_tokens 0 (rest st)
  | None => pair_tokens 0 s = []
  end.
Proof.
  induction s as [|c s IH]; intros pv.
  - cbn [search_from]. pose proof (match_here_trade pv []) as Hm.
    rewrite trade_at_nil in Hm. by rewrite Hm.
  - cbn [search_from]. pose proof (match_here_trade pv (c :: s)) as Hm.
    rewrite (pair_tokens_0 (c :: s)). cbn [tail].
    destruct (trade_at (c :: s)) as [[[a sym] behind]|].
    + destruct Hm as (st & w & -> & Hr & Hw & Hs & H1 & H2 & H0).
      split_and!; [done| |by rewrite H1, H2, Hr].
      rewrite Hs, Hr, length_app. destruct w; [done|]. simpl. lia.
    + rewrite Hm. specialize (IH (Some c)).
      destruct (search_from trade_re (Some c) s) as [st|]; [|done].
      destruct IH as (H0 & Hlen & Hp). split_and!; [done|simpl; lia|done].
Qed.

Lemma finditer_from_trade : forall fuel s pv,
  List.length s < fuel ->
  map (fun st => (group_or_empty 1 st, group_or_empty 2 st))
      (finditer_from fuel trade_re pv s) = pair_tokens 0 s.
Proof.
  induction fuel as [|f IH]; intros s pv Hlen; [lia|].
  cbn [finditer_from]. pose proof (search_from_trade s pv) as Hs.
  destruct (search_from trade_re pv s) as [st|]; [|done].
  destruct Hs as (H0 & Hl & ->). cbn [map]. f_equal.
  destruct (group_or_empty 0 st) eqn:Eg; [done|].
  apply IH. lia.
Qed.

(** [re.findall] with the trade pattern reads the trades off the text
    from left to right. *)
Lemma findall2_trade_re t :
  findall2 trade_re t = pair_tokens 0 (list_ascii_of_string t).
Proof. unfold findall2, finditer. apply finditer_from_trade. lia. Qed.

End TradeFacts.

(** ** What the passes do to the session *)

Module TraceFacts.
Import Py Obs.
#[local] Open Scope py_scope.

Section Facts.
Context {S E : Type} `{Session S E}.
#[local] Abbreviation M := (M S E).

Lemma emits_weaken {A} (P Q : list (event E) -> Prop) (c : M A) :
  (forall evs, P evs -> Q evs) -> emits P c -> emits Q c.
Proof.
  intros HPQ Hc w r w' Hr. destruct (Hc _ _ _ Hr) as (evs & Ht & HP). by eauto.
Qed.

Lemma silent_trace {A} (c : M A) w r w' : silent c -> c w = (r, w') -> trace w' = trace w.
Proof. intros Hc Hr. destruct (Hc _ _ _ Hr) as (evs & -> & ->). by rewrite app_nil_r. Qed.

Lemma silent_intro {A} (c : M A) :
  (forall w r w', c w = (r, w') -> trace w' = trace w) -> silent c.
Proof.
  intros Hc w r w' Hr. exists []. rewrite app_nil_r. split; [by eapply Hc|done].
Qed.

Lemma silent_ret {A} (a : A) : silent (ret a : M A).
Proof. apply silent_intro. by intros w r w' [= <- <-]. Qed.

Lemma silent_raise {A} e : silent (raise e : M A).
Proof. apply silent_intro. by intros w r w' [= <- <-]. Qed.

Lemma silent_query {A} (q : S -> result A) : silent (query q : M A).
Proof. apply silent_intro. by intros w r w' [= <- <-]. Qed.

Lemma silent_datetime_now : silent (datetime_now : M string).
Proof. apply silent_intro. by intros w r w' [= <- <-]. Qed.

Lemma silent_element_text l : silent (element_text l : M string).
Proof.
  apply silent_intro. intros w r w'. unfold element_text.
  destruct (find_element l (sess w)); by intros [= <- <-].
Qed.

Lemma silent_wait_until_presence l : silent (wait_until_presence l : M E).
Proof.
  apply silent_intro. intros w r w'. unfold wait_until_presence.
  destruct (wait_presence l (sess w)) as [r1 s1]. by intros [= <- <-].
Qed.

Lemma silent_bind {A B} (c : M A) (f : A -> M B) :
  silent c -> (forall a, silent (f a)) -> silent (bind c f).
Proof.
  intros Hc Hf. apply silent_intro. intros w r w'. unfold bind.
  destruct (c w) as [[a|e] w1] eqn:Ec; intros Hr.
  - rewrite (silent_trace _ _ _ _ (Hf a) Hr). by apply (silent_trace c _ _ _ Hc Ec).
  - injection Hr as <- <-. by apply (silent_trace c _ _ _ Hc Ec).
Qed.

Lemma silent_try_except {A} (c : M A) (h : exn -> M A) :
  silent c -> (forall e, silent (h e)) -> silent (try_except c h).
Proof.
  intros Hc Hh. apply silent_intro. intros w r w'. unfold try_except.
  destruct (c w) as [[a|e] w1] eqn:Ec; intros Hr.
  - injection Hr as <- <-. by apply (silent_trace c _ _ _ Hc Ec).
  - rewrite (silent_trace _ _ _ _ (Hh e) Hr). by apply (silent_trace c _ _ _ Hc Ec).
Qed.

Lemma silent_try_block {D} (steps : list (D -> M D)) (h : exn -> D -> M D) (d : D) :
  Forall (fun step => forall d, silent (step d)) steps ->
  (forall e d, silent (h e d)) -> silent (try_block steps h d).
Proof.
  intros Hs Hh. revert d. induction Hs as [|step steps Hstep _ IH]; intros d; simpl.
  - apply silent_ret.
  - apply silent_intro. intros w r w'.
    destruct (step d w) as [[d'|e] w1] eqn:Es; intros Hr.
    + rewrite (silent_trace _ _ _ _ (IH d') Hr). by apply (silent_trace _ _ _ _ (Hstep d) Es).
    + rewrite (silent_trace _ _ _ _ (Hh e d) Hr). by apply (silent_trace _ _ _ _ (Hstep d) Es).
Qed.

Lemma emits_bind_l {A B} P (c : M A) (f : A -> M B) :
  P [] -> silent c -> (forall a, emits P (f a)) -> emits P (bind c f).
Proof.
  intros HP Hc Hf w r w'. unfold bind.
  destruct (c w) as [[a|e] w1] eqn:Ec; intros Hr.
  - destruct (Hf a _ _ _ Hr) as (evs & Ht & Hev). exists evs.
    by rewrite Ht, (silent_trace c _ _ _ Hc Ec).
  - injection Hr as <- <-. exists []. by rewrite app_nil_r, (silent_trace c _ _ _ Hc Ec).
Qed.

Lemma emits_bind_r {A B} P (c : M A) (f : A -> M B) :
  emits P c -> (forall a, silent (f a)) -> emits P (bind c f).
Proof.
  intros Hc Hf w r w'. unfold bind.
  destruct (c w) as [[a|e] w1] eqn:Ec; intros Hr.
  - destruct (Hc _ _ _ Ec) as (evs & Ht & Hev). exists evs.
    by rewrite (silent_trace _ _ _ _ (Hf a) Hr).
  - injection Hr as <- <-. by apply (Hc _ _ _ Ec).
Qed.

Lemma emits_try_except_r {A} P (c : M A) (h : exn -> M A) :
  emits P c -> (forall e, silent (h e)) -> emits P (try_except c h).
Proof.
  intros Hc Hh w r w'. unfold try_except.
  destruct (c w) as [[a|e] w1] eqn:Ec; intros Hr.
  - injection Hr as <- <-. by apply (Hc _ _ _ Ec).
  - destruct (Hc _ _ _ Ec) as (evs & Ht & Hev). exists evs.
    by rewrite (silent_trace _ _ _ _ (Hh e) Hr).
Qed.

Lemma emits_try_block_head {D} P (step : D -> M D) (steps : list (D -> M D))
    (h : exn -> D -> M D) (d : D) :
  (forall d, emits P (step d)) ->
  Forall (fun step => forall d, silent (step d)) steps ->
  (forall e d, silent (h e d)) ->
  emits P (try_block (step :: steps) h d).
Proof.
  intros Hstep Hs Hh w r w'. simpl.
  destruct (step d w) as [[d'|e] w1] eqn:Es; intros Hr.
  - destruct (Hstep _ _ _ _ Es) as (evs & Ht & Hev). exists evs.
    by rewrite (silent_trace _ _ _ _ (silent_try_block steps h d' Hs Hh) Hr).
  - destruct (Hstep _ _ _ _ Es) as (evs & Ht & Hev). exists evs.
    by rewrite (silent_trace _ _ _ _ (Hh e d) Hr).
Qed.

Lemma one_click_nil n : one_click (E:=E) n [].
Proof. by left. Qed.

(** A click and its settle sleep. *)
Lemma emits_click_sleep_then {A} (b : E) n (k : unit -> M A) :
  (forall u, silent (k u)) ->
  emits (one_click n) (bind (element_click b) (fun _ => bind (time_sleep n) k)).
Proof.
  intros Hk w r w'. unfold bind at 1, element_click, Py.action.
  destruct (click b (sess w)) as [[[]|e] s1].
  - unfold bind, time_sleep. cbn [sess has_driver trace]. intros Hr.
    exists [EvClick b; EvSleep n]. split; [|right; by eauto].
    rewrite (silent_trace _ _ _ _ (Hk tt) Hr). cbn [trace]. by rewrite <- app_assoc.
  - intros [= <- <-]. exists [EvClick b]. split; [done|right; by eauto].
Qed.

Lemma emits_click_sleep (b : E) n :
  emits (one_click n) (bind (element_click b) (fun _ => time_sleep n) : M unit).
Proof.
  intros w r w'. unfold bind at 1, element_click, Py.action.
  destruct (click b (sess w)) as [[[]|e] s1].
  - unfold time_sleep. cbn [sess has_driver trace]. intros [= <- <-].
    exists [EvClick b; EvSleep n]. split; [|right; by eauto].
    cbn [trace]. by rewrite <- app_assoc.
  - intros [= <- <-]. exists [EvClick b]. split; [done|right; by eauto].
Qed.

End Facts.

Ltac silent_hook := fail.

Ltac silent_step :=
  first
    [ assumption | silent_hook | apply silent_ret | apply silent_raise | apply silent_query
    | apply silent_wait_until_presence | apply silent_datetime_now
    | apply silent_element_text
    | match goal with
      | |- silent (bind _ _) => apply silent_bind
      | |- silent (try_except _ _) => apply silent_try_except
      | |- silent (try_block _ _ _) => apply silent_try_block
      end
    | lazymatch goal with
      | |- silent (if ?b then _ else _) => destruct b
      | |- silent (match ?x with _ => _ end) => destruct x
      | |- silent _ => fail
      | |- forall _, _ => intro
      | |- Forall _ (_ :: _) => constructor
      | |- Forall _ [] => constructor
      end ].

Ltac silent_tac := repeat silent_step.

Section Passes.
Context {S E : Type} `{Session S E}.
#[local] Abbreviation M := (M S E).
Context (list_of_set : list string -> list string).

Lemma silent_lookup_or_na key (c : M string) pd :
  silent c -> silent (Basic.lookup_or_na key c pd).
Proof. intros Hc. unfold Basic.lookup_or_na. silent_tac. Qed.

Lemma silent_scrape_profile : silent (Basic.scrape_profile : M _).
Proof.
  unfold Basic.scrape_profile. silent_tac; apply silent_lookup_or_na; silent_tac.
Qed.

Lemma silent_parse_if c section key l sd : silent (Basic.parse_if c section key l sd : M _).
Proof. unfold Basic.parse_if. silent_tac. Qed.

Lemma silent_collect_items (items : list E) : forall acc,
  silent (Basic.collect_items items acc : M _).
Proof.
  induction items as [|it items IH]; intros acc; simpl; silent_tac.
Qed.

Lemma one_click_scrape_stats : emits (one_click 2) (Basic.scrape_stats : M _).
Proof.
  unfold Basic.scrape_stats. apply emits_try_block_head.
  - intros sd. apply emits_bind_r; [|intros; apply silent_ret].
    apply emits_try_except_r; [|intros; apply silent_ret].
    apply emits_bind_l; [apply one_click_nil|apply silent_query|].
    intros tab. apply emits_click_sleep.
  - silent_tac; apply silent_parse_if.
  - intros e d. apply silent_ret.
Qed.

Lemma one_click_scrape_portfolio : emits (one_click 3) (Basic.scrape_portfolio : M _).
Proof.
  unfold Basic.scrape_portfolio. apply emits_bind_r.
  - apply emits_try_except_r; [|intros; apply silent_ret].
    apply emits_bind_l; [apply one_click_nil|apply silent_query|].
    intros tab. apply emits_click_sleep_then. intros; apply silent_ret.
  - intros [|]; silent_tac. apply silent_collect_items.
Qed.

Lemma one_click_scrape_trade_history :
  emits (one_click 3) (Basic.scrape_trade_history : M _).
Proof.
  unfold Basic.scrape_trade_history. apply emits_bind_r.
  - apply emits_try_except_r; [|intros; apply silent_ret].
    apply emits_bind_l; [apply one_click_nil|apply silent_query|].
    intros tab. apply emits_click_sleep.
  - intros _. silent_tac. apply silent_collect_items.
Qed.

Lemma one_click_click_first_tab label settle (tabs : list E) :
  emits (one_click settle) (Advanced.click_first_tab label settle tabs : M _).
Proof.
  induction tabs as [|tab tabs IH]; simpl.
  - apply (emits_weaken (fun evs => evs = [])); [intros ? ->; apply one_click_nil|].
    apply silent_ret.
  - apply emits_bind_l; [apply one_click_nil|apply silent_query|].
    intros t. destruct (contains label (lower t)); [apply emits_click_sleep|apply IH].
Qed.

Lemma one_click_open_section label settle :
  emits (one_click settle) (Advanced.open_section label settle : M _).
Proof.
  unfold Advanced.open_section.
  apply emits_bind_l; [apply one_click_nil|apply silent_query|].
  intros tabs. apply one_click_click_first_tab.
Qed.

Lemma silent_get_profile_info : silent (Advanced.get_profile_info : M _).
Proof. unfold Advanced.get_profile_info. silent_tac. Qed.

Lemma silent_get_trading_stats : silent (Advanced.get_trading_stats : M _).
Proof. unfold Advanced.get_trading_stats. silent_tac. Qed.

Lemma silent_get_open_trades : silent (Advanced.get_open_trades : M _).
Proof. unfold Advanced.get_open_trades. silent_tac. Qed.

Lemma silent_get_raw_data : silent (Advanced.get_raw_data : M _).
Proof. unfold Advanced.get_raw_data. silent_tac. Qed.

Lemma one_click_get_performance_stats :
  emits (one_click 2) (Advanced.get_performance_stats : M _).
Proof.
  unfold Advanced.get_performance_stats. apply emits_try_block_head.
  - intros d. apply emits_bind_r; [apply one_click_open_section|]. silent_tac.
  - constructor.
  - intros e d. apply silent_ret.
Qed.

Lemma one_click_get_portfolio_data :
  emits (one_click 3) (Advanced.get_portfolio_data list_of_set : M _).
Proof.
  unfold Advanced.get_portfolio_data. apply emits_try_block_head.
  - intros d. apply emits_bind_r; [apply one_click_open_section|]. silent_tac.
  - constructor.
  - intros e d. apply silent_ret.
Qed.

Lemma one_click_get_trade_history :
  emits (one_click 3) (Advanced.get_trade_history : M _).
Proof.
  unfold Advanced.get_trade_history. apply emits_try_block_head.
  - intros d. apply emits_bind_r; [apply one_click_open_section|]. silent_tac.
  - constructor.
  - intros e d. apply silent_ret.
Qed.

Lemma one_click_accept_cookies : emits (one_click 1) (Advanced.accept_cookies : M _).
Proof.
  unfold Advanced.accept_cookies.
  apply emits_try_except_r; [|intros; apply silent_ret].
  apply emits_bind_l; [apply one_click_nil|apply silent_query|].
  intros b. apply emits_click_sleep.
Qed.

End Passes.
End TraceFacts.

(** ** The entries that the selector-based scraper collects *)

Module ItemFacts.
Import Py Obs.
#[local] Open Scope py_scope.
Section Facts.
Context {S E : Type} `{Session S E}.
#[local] Abbreviation M := (M S E).

Lemma readable_texts_cons (s : S) (it : E) (items : list E) :
  readable_texts s (it :: items) =
    match text it s with
    | Ok t => if nonempty t then t :: readable_texts s items else readable_texts s items
    | Raise _ => readable_texts s items
    end.
Proof.
  unfold readable_texts. simpl. destruct (text it s) as [t|e]; [|done].
  by destruct (nonempty t).
Qed.

Lemma readable_texts_length (s : S) (items : list E) :
  List.length (readable_texts s items) <= List.length items.
Proof.
  induction items as [|it items IH]; [done|]. rewrite readable_texts_cons. simpl.
  destruct (text it s) as [t|e]; [|lia]. destruct (nonempty t); simpl; lia.
Qed.

Lemma readable_texts_nonempty (s : S) (items : list E) :
  Forall (fun t => t <> "") (readable_texts s items).
Proof.
  induction items as [|it items IH]; [constructor|]. rewrite readable_texts_cons.
  destruct (text it s) as [t|e]; [|done]. destruct t; [done|]. by constructor.
Qed.

Lemma collect_items_eq (items : list E) : forall acc (w : world S E),
  Basic.collect_items items acc w =
    (Ok (acc ++ map (fun t => Basic.Item t (now_isoformat (sess w)))
                    (readable_texts (sess w) items)), w).
Proof.
  induction items as [|it items IH]; intros acc w.
  - simpl. by rewrite app_nil_r.
  - rewrite readable_texts_cons. cbn [Basic.collect_items].
    unfold bind at 1, try_except, bind at 1, query.
    destruct (text it (sess w)) as [t|e].
    + unfold bind, datetime_now, ret. destruct t as [|c t]; cbn [Basic.nonempty nonempty].
      * by rewrite IH.
      * cbn iota beta. rewrite IH. cbn [map]. by rewrite <- app_assoc.
    + exact (IH acc w).
Qed.

Lemma collected_items (s : S) now (found : list E) n :
  let items := map (fun t => Basic.Item t now) (readable_texts s (firstn n found)) in
  List.length items <= n /\
  Forall (fun it => Basic.item_text it <> "") items /\
  map Basic.item_text items = readable_texts s (firstn n found).
Proof.
  intros items. subst items. split_and!.
  - rewrite length_map. etrans; [apply readable_texts_length|]. rewrite length_take. lia.
  - apply Forall_map. eapply Forall_impl; [apply readable_texts_nonempty|]. done.
  - rewrite map_map. simpl. apply map_id.
Qed.

End Facts.
End ItemFacts.

(** ** Steps of the runs *)

Module RunFacts.
Import Py Obs Advanced.
#[local] Open Scope py_scope.
Section Facts.
Context {S E : Type} `{Session S E}.
#[local] Abbreviation M := (M S E).
Context (list_of_set : list string -> list string).

Lemma parse_if_eq c section key l sd (w : world S E) :
  Basic.parse_if c section key l sd w =
    (Ok (if c then match fst (element_text l w) with
                   | Ok v => Basic.set_nested section key v sd
                   | Raise _ => sd
                   end
         else sd), w).
Proof.
  unfold Basic.parse_if. destruct c; [|done].
  unfold try_except, bind, element_text, ret.
  destruct (find_element l (sess w)) as [el|e]; [|done]. cbn [fst].
  by destruct (text el (sess w)).
Qed.

Lemma element_text_world l (w : world S E) r w1 : element_text l w = (r, w1) -> w1 = w.
Proof.
  unfold element_text. destruct (find_element l (sess w)); intros Hr; by injection Hr.
Qed.

Lemma get_trade_history_empty (w : world S E) r w' :
  get_trade_history w = (r, w') -> r = Ok [].
Proof.
  unfold get_trade_history. cbn [try_block]. unfold bind at 1.
  destruct (open_section "history" 3 w) as [[[]|e] w1].
  - unfold bind, element_text, ret, swallow.
    destruct (find_element (TAG_NAME, "body") (sess w1)) as [el|e]; [|by intros [= <- _]].
    destruct (text el (sess w1)); by intros [= <- _].
  - unfold swallow, ret. by intros [= <- _].
Qed.

Lemma start_driver_trace (w w1 : world S E) r :
  start_driver w = (r, w1) -> trace w1 = trace w ++ [EvStart].
Proof.
  unfold start_driver. destruct (new_chrome (sess w)) as [[[]|e] s1].
  - destruct (hide_webdriver s1) as [r1 s2]. by intros [= _ <-].
  - by intros [= _ <-].
Qed.

Lemma action_trace ev a (w w1 : world S E) r :
  Py.action ev a w = (r, w1) -> trace w1 = trace w ++ [ev] /\ has_driver w1 = has_driver w.
Proof. unfold Py.action. destruct (a (sess w)) as [r1 s1]. by intros [= _ <-]. Qed.

End Facts.
End RunFacts.



(** * The claims *)

Import TradeSpec ReFacts NumberFacts ScraperFacts TradeFacts AdvancedFacts.
Import TraceFacts ItemFacts RunFacts.
Import Advanced.

Section Claims.
Context {S E : Type} `{Session S E}.
#[local] Abbreviation M := (M S E).
Context (list_of_set : list string -> list string).

(** C1 (amended). What a rule that finds nothing leaves in the record
    depends on the backend. In the selector-based [scrape_profile] each
    of [name], [copiers] and [risk_score] is always present, bound to the
    text of the element or to ['N/A'] when its lookup fails. In the
    regex-based passes ([get_profile_info], [get_trading_stats],
    [get_performance_stats]) a rule is bound to the first group of its
    first match, and a rule whose pattern does not match the page text
    leaves no key at all. No exception escapes any of these passes. *)
Theorem unmatched_field_by_backend (w : world S E) :
  (let w1 := World (snd (wait_presence Basic.name_locator (sess w))) (has_driver w) (trace w) in
   exists d, Basic.scrape_profile w = (Ok d, w1) /\
     d !! "name" =
       Some (or_na (match fst (wait_presence Basic.name_locator (sess w)) with
                    | Ok el => text el (sess w1)
                    | Raise e => Raise e
                    end)) /\
     d !! "copiers" = Some (or_na (fst (element_text Basic.copiers_locator w1))) /\
     d !! "risk_score" = Some (or_na (fst (element_text Basic.risk_score_locator w1)))) /\
  (exists d, get_profile_info w = (Ok d, w) /\
     forall key pattern, (key, pattern) ∈ profile_patterns ->
       d !! key = rule_value pattern (fst (element_text (TAG_NAME, "body") w))) /\
  (exists d, get_trading_stats w = (Ok d, w) /\
     forall key pattern, (key, pattern) ∈ trading_patterns ->
       d !! key = rule_value pattern (fst (element_text (TAG_NAME, "body") w))) /\
  (exists d w', get_performance_stats w = (Ok d, w') /\
     forall key pattern, (key, pattern) ∈ performance_metrics ->
       d !! key =
         match open_section "stat" 2 w with
         | (Ok _, w1) => rule_value pattern (fst (element_text (TAG_NAME, "body") w1))
         | (Raise _, _) => None
         end).
Proof.
  split_and!.
  - unfold Basic.scrape_profile, Basic.lookup_or_na. cbn [try_block].
    unfold try_except, bind, wait_until_presence, query, element_text, ret, swallow.
    destruct (wait_presence Basic.name_locator (sess w)) as [[el|e] s1]; cbn [fst snd sess].
    all: repeat match goal with
         | |- context [match ?x with Ok _ => _ | Raise _ => _ end] => destruct x; cbn [fst snd sess]
         end.
    all: eexists; split; [reflexivity|]; split_and!; by simplify_map_eq.
  - apply get_profile_info_rules.
  - unfold get_trading_stats. cbn [try_block].
    unfold bind, element_text, ret, swallow.
    destruct (find_element (TAG_NAME, "body") (sess w)) as [el|e]; cbn [fst].
    2: { eexists; split; [reflexivity|]. by intros. }
    destruct (text el (sess w)) as [t|e]; cbn [fst].
    2: { eexists; split; [reflexivity|]. by intros. }
    eexists; split; [reflexivity|]. intros key pattern Hin.
    rewrite (apply_patterns_lookup _ _ _ _ pattern); [|by_compute|done].
    unfold rule_value. by destruct (search pattern t).
  - unfold get_performance_stats. cbn [try_block].
    unfold bind at 1. destruct (open_section "stat" 2 w) as [[[]|e] w1].
    2: { do 2 eexists; split; [reflexivity|]. by intros. }
    unfold bind, element_text, ret, swallow.
    destruct (find_element (TAG_NAME, "body") (sess w1)) as [el|e]; cbn [fst].
    2: { do 2 eexists; split; [reflexivity|]. by intros. }
    destruct (text el (sess w1)) as [t|e]; cbn [fst].
    2: { do 2 eexists; split; [reflexivity|]. by intros. }
    do 2 eexists; split; [reflexivity|]. intros key pattern Hin.
    rewrite (apply_patterns_lookup _ _ _ _ pattern); [|by_compute|done].
    unfold rule_value. by destruct (search pattern t).
Qed.

(** C10. [get_raw_data] never raises: it returns the record of the first
    5000 characters of the body text and the current URL, or the empty
    record when the body or the URL cannot be read. *)
Theorem get_raw_data_bounded (w : world S E) :
  exists r, get_raw_data w = (Ok r, w) /\
    match fst (element_text (TAG_NAME, "body") w), current_url (sess w) with
    | Ok t, Ok u =>
        r = raw_record (take 5000 t) u /\
        r !! "page_text" = Some (take 5000 t) /\
        String.length (take 5000 t) <= 5000 /\
        exists sfx, t = take 5000 t +:+ sfx
    | _, _ => r = ∅
    end.
Proof.
  unfold get_raw_data, try_except, bind, query, ret, element_text.
  destruct (find_element (TAG_NAME, "body") (sess w)) as [el|e]; cbn [fst].
  - destruct (text el (sess w)) as [t|e]; cbn [fst].
    + destruct (current_url (sess w)) as [u|e]; cbn [fst].
      * eexists. split; [done|]. split_and!; [done|by unfold raw_record; rewrite lookup_insert_eq|apply take_length|apply take_prefix].
      * by eexists.
    + by eexists.
  - by eexists.
Qed.

(** C2 (amended). A run of [scrape_investor] whose driver started and
    whose profile page loaded always reaches [close_driver], exactly once
    and after the passes, and returns the record unless [quit] itself
    raises. When a pass lets an exception escape, the record keeps the
    fields of the passes before it, the later fields keep their empty
    defaults, and ['error'] holds the text of the exception. The passes
    of the repository catch every fault of the driver themselves, so
    with them no ['error'] field appears. [scrape_investor_complete],
    with its own passes, returns its record and closes the driver once
    after them; its record has no ['error'] field. *)
Theorem pipeline_faults_and_teardown (user : string) (w : world S E) :
  (forall (p_profile : M (gmap string string))
          (p_stats : M (gmap string (gmap string string)))
          (p_portfolio p_history : M (list Basic.item)) (w3 : world S E),
     quiet p_profile -> quiet p_stats -> quiet p_portfolio -> quiet p_history ->
     (start_driver ;; driver_get ("https://www.etoro.com/people/" +:+ user) ;; time_sleep 5) w
       = (Ok tt, w3) ->
     let r0 := Basic.InvestorData user ("https://www.etoro.com/people/" +:+ user)
                 (now_isoformat (sess w3)) ∅ ∅ [] [] None in
     exists r wb,
       Basic.scrape_investor_with p_profile p_stats p_portfolio p_history user w =
         (match fst (quit (sess wb)) with Ok _ => Ok r | Raise e => Raise e end,
          World (snd (quit (sess wb))) true (trace wb ++ [EvQuit])) /\
       quits (trace wb ++ [EvQuit]) = quits (trace w) + 1 /\
       (safe p_profile -> safe p_stats -> safe p_portfolio -> safe p_history ->
        Basic.error r = None) /\
       match p_profile w3 with
       | (Raise e, w4) => wb = w4 /\ r = Basic.set_error (str_exn e) r0
       | (Ok v1, w4) =>
         match p_stats w4 with
         | (Raise e, w5) =>
             wb = w5 /\ r = Basic.set_error (str_exn e) (Basic.set_profile v1 r0)
         | (Ok v2, w5) =>
           match p_portfolio w5 with
           | (Raise e, w6) =>
               wb = w6 /\
               r = Basic.set_error (str_exn e)
                     (Basic.set_stats v2 (Basic.set_profile v1 r0))
           | (Ok v3, w6) =>
             match p_history w6 with
             | (Raise e, w7) =>
                 wb = w7 /\
                 r = Basic.set_error (str_exn e)
                       (Basic.set_portfolio v3
                          (Basic.set_stats v2 (Basic.set_profile v1 r0)))
             | (Ok v4, w7) =>
                 wb = w7 /\
                 r = Basic.set_trade_history v4
                       (Basic.set_portfolio v3
                          (Basic.set_stats v2 (Basic.set_profile v1 r0)))
             end
           end
         end
       end) /\
  (safe (Basic.scrape_profile : M _) /\ safe (Basic.scrape_stats : M _) /\
   safe (Basic.scrape_portfolio : M _) /\ safe (Basic.scrape_trade_history : M _)) /\
  (forall creds (w2 : world S E),
     (start_driver ;;
      (match creds with
       | Some _ => _ <- login creds ;; ret tt
       | None => ret tt
       end) ;;
      driver_get ("https://www.etoro.com/people/" +:+ user)) w = (Ok tt, w2) ->
     exists r wb,
       scrape_investor_complete list_of_set creds user w =
         (match fst (quit (sess wb)) with Ok _ => Ok r | Raise e => Raise e end,
          World (snd (quit (sess wb))) true (trace wb ++ [EvQuit])) /\
       quits (trace wb ++ [EvQuit]) = quits (trace w) + 1 /\
       username r = user /\
       profile_url r = "https://www.etoro.com/people/" +:+ user).
Proof.
  split; [|split].
  - intros p_profile p_stats p_portfolio p_history w3 Q1 Q2 Q3 Q4 Hpre.
    by apply scrape_investor_with_outcome.
  - split_and!.
    + apply BasicFacts.safe_scrape_profile.
    + apply BasicFacts.safe_scrape_stats.
    + apply BasicFacts.safe_scrape_portfolio.
    + apply BasicFacts.safe_scrape_trade_history.
  - intros creds w2 Hpre. by apply (scrape_investor_complete_outcome list_of_set creds user w w2).
Qed.

(** C3 (amended). [get_portfolio_data] never raises and returns a list
    without duplicates of at most 50 entries. When the section loop
    passed and the page source could be read, the entries are
    instruments found in the source, each one to five capitals after a
    dollar sign; when the source holds at most 50 distinct instruments
    none is dropped, and which are dropped beyond 50 depends on the
    order in which the set is listed. A source with ["$AAPL"] three
    times and nothing else yields exactly ["AAPL"]. *)
Theorem portfolio_is_a_bounded_set (w : world S E) :
  enumerates list_of_set ->
  exists portfolio w',
    get_portfolio_data list_of_set w = (Ok portfolio, w') /\
    NoDup portfolio /\ List.length portfolio <= 50 /\
    forall w1 src,
      open_section "portfolio" 3 w = (Ok tt, w1) ->
      page_source (sess w1) = Ok src ->
      w' = w1 /\
      (forall x, x ∈ portfolio -> x ∈ findall1 instrument_re src /\ instrument_in src x) /\
      (List.length (encounter_order [] (findall1 instrument_re src)) <= 50 ->
       forall x, x ∈ findall1 instrument_re src -> x ∈ portfolio) /\
      (src = "$AAPL $AAPL $AAPL" -> portfolio = ["AAPL"]).
Proof.
  intros Hen.
  destruct (proj2 (safe_get_portfolio_data list_of_set) w) as (portfolio & w' & Hrun).
  exists portfolio, w'. split; [done|].
  destruct (open_section "portfolio" 3 w) as [[[]|e] w1] eqn:Hnav.
  2: { revert Hrun. unfold get_portfolio_data. cbn [try_block]. unfold bind at 1.
       rewrite Hnav. intros [= <- <-]. split_and!; [apply NoDup_nil_2|simpl; lia|done]. }
  destruct (page_source (sess w1)) as [src|e] eqn:Hsrc.
  2: { revert Hrun. unfold get_portfolio_data. cbn [try_block]. unfold bind at 1.
       rewrite Hnav. unfold bind, query, swallow, ret. rewrite Hsrc.
       intros [= <- <-]. split_and!; [apply NoDup_nil_2|simpl; lia|].
       intros w1' src' [= <-]. congruence. }
  rewrite (get_portfolio_data_eq list_of_set w w1 src Hnav Hsrc) in Hrun.
  injection Hrun as <- <-.
  destruct (Hen (findall1 instrument_re src)) as [Hnd Hel].
  assert (Hsub : forall x, x ∈ firstn 50 (list_of_set (findall1 instrument_re src)) ->
                           x ∈ findall1 instrument_re src).
  { intros x Hx. apply Hel. eapply elem_of_sublist; [done|apply sublist_take]. }
  split_and!.
  - eapply sublist_NoDup; [done|apply sublist_take].
  - rewrite length_take. lia.
  - intros w1' src' [= <-] Hsrc'. rewrite Hsrc in Hsrc'. injection Hsrc' as <-.
    split_and!; [done| | |].
    + intros x Hx. split; [by apply Hsub|]. by apply findall1_instruments, Hsub.
    + intros Hle x Hx. rewrite take_ge; [by apply Hel|].
      by rewrite (enumerates_length _ _ Hen).
    + intros ->.
      assert (Hf : findall1 instrument_re "$AAPL $AAPL $AAPL" = ["AAPL"; "AAPL"; "AAPL"])
        by by vm_compute.
      rewrite Hf. rewrite (enumerates_constant list_of_set "AAPL" _ Hen); [done|in_list|].
      intros x Hx. rewrite !elem_of_cons, elem_of_nil in Hx. by intuition.
Qed.

(** C5. When the body text can be read, [get_open_trades] returns
    exactly the trades that a reading of the text from the left finds:
    wherever a [BUY] or [SELL] stands that white space and a capital
    follow, it is paired with the symbol of up to five capitals behind
    the white space, and the reading goes on behind the symbol. The
    pairs come in the order of the text, each is such an occurrence,
    and on the text ["BUY AAPL SELL TSLA"] they are BUY AAPL and
    SELL TSLA. *)
Theorem open_trades_pairs (w : world S E) (el : E) (t : string) :
  find_element (TAG_NAME, "body") (sess w) = Ok el ->
  text el (sess w) = Ok t ->
  exists trades,
    get_open_trades w = (Ok trades, w) /\
    map (fun tr => (action tr, symbol tr)) trades = pair_tokens 0 (list_ascii_of_string t) /\
    paired (list_ascii_of_string t) (map (fun tr => (action tr, symbol tr)) trades) /\
    (t = "BUY AAPL SELL TSLA" -> trades = [Trade "BUY" "AAPL"; Trade "SELL" "TSLA"]).
Proof.
  intros Hel Ht. rewrite get_open_trades_eq. unfold element_text. rewrite Hel, Ht. cbn [fst].
  eexists. split; [done|].
  assert (Hmap : map (fun tr => (action tr, symbol tr))
                   (map (fun '(a, sym) => Trade a sym) (findall2 trade_re t))
                 = findall2 trade_re t).
  { rewrite map_map. rewrite (map_ext _ (fun p => p)); [|by intros []]. apply map_id. }
  rewrite Hmap. split_and!.
  - apply findall2_trade_re.
  - apply findall2_trades_paired.
  - intros ->. by vm_compute.
Qed.

(** C7. On a page whose body text holds ["Risk Score 42"], with no match
    of the risk-score pattern starting before it and no further digit
    behind it, [get_profile_info] binds [risk_score] to ["42"]. *)
Theorem risk_score_rule_extracts (w : world S E) (el : E) (pre sfx : string) :
  find_element (TAG_NAME, "body") (sess w) = Ok el ->
  text el (sess w) = Ok (pre +:+ "Risk Score 42" +:+ sfx) ->
  no_match_before risk_score_re None (list_ascii_of_string pre)
    (list_ascii_of_string ("Risk Score 42" +:+ sfx)) = true ->
  starts_with_class is_digit (list_ascii_of_string sfx) = false ->
  exists d, get_profile_info w = (Ok d, w) /\ d !! "risk_score" = Some "42".
Proof.
  intros Hel Ht Hno Hd. destruct (get_profile_info_rules w) as (d & Hrun & Hk).
  exists d. split; [done|]. rewrite (Hk "risk_score" risk_score_re).
  - unfold element_text. rewrite Hel, Ht. cbn [fst rule_value].
    pose proof (search_risk_score pre sfx Hno Hd) as Hs.
    by destruct (search risk_score_re _).
  - unfold profile_patterns. in_list.
Qed.

(** C8 (amended). The section loop of the regex-based scraper reads the
    buttons in page order, clicks the first whose lowercased text
    contains the label and then sleeps the settle time; the buttons
    before it are passed over and none after it is touched. When no
    button matches it clicks nothing and raises nothing, and the pass
    goes on to extract from the page as it stands, which need not be
    empty: [get_performance_stats] applies its rules to the current
    body text and [get_portfolio_data] scans the current page source;
    [get_trade_history] is empty in any case. In the selector-based
    scraper the tab is looked up by the driver. When that lookup fails,
    [scrape_portfolio] returns the empty list and leaves the session
    alone, and [scrape_stats] leaves the session alone and goes on with
    the current view: it stores the gain, the total and the win rate
    that the page as it stands shows. *)
Theorem open_section_best_effort label settle (w : world S E) :
  (forall tabs, find_elements (TAG_NAME, "button") (sess w) = Ok tabs ->
     (forall pre b tb post,
        tabs = pre ++ b :: post -> passed_over label w pre ->
        text b (sess w) = Ok tb -> contains label (lower tb) = true ->
        open_section label settle w =
          match click b (sess w) with
          | (Ok _, s') =>
              (Ok tt, World (sleep settle s') (has_driver w)
                        (trace w ++ [EvClick b; EvSleep settle]))
          | (Raise e, s') => (Raise e, World s' (has_driver w) (trace w ++ [EvClick b]))
          end) /\
     (passed_over label w tabs -> open_section label settle w = (Ok tt, w)) /\
     (passed_over "stat" w tabs ->
        get_performance_stats w =
          (Ok (match fst (element_text (TAG_NAME, "body") w) with
               | Ok t => apply_patterns performance_metrics t ∅
               | Raise _ => ∅
               end), w)) /\
     (passed_over "portfolio" w tabs ->
        get_portfolio_data list_of_set w =
          (Ok (match page_source (sess w) with
               | Ok src => firstn 50 (list_of_set (findall1 instrument_re src))
               | Raise _ => []
               end), w)) /\
     (passed_over "history" w tabs -> get_trade_history w = (Ok [], w))) /\
  (forall e, find_element Basic.portfolio_tab_locator (sess w) = Raise e ->
     Basic.scrape_portfolio w = (Ok [], w)) /\
  (forall e, find_element Basic.stats_tab_locator (sess w) = Raise e ->
     exists sd, Basic.scrape_stats w = (Ok sd, w) /\
       forall page_text, fst (element_text (TAG_NAME, "body") w) = Ok page_text ->
         sd !! "performance" =
           Some (if contains "Gain" page_text
                 then match fst (element_text
                        (XPATH, "//*[contains(text(), 'Gain')]/following-sibling::*") w) with
                      | Ok v => {["gain" := v]}
                      | Raise _ => ∅
                      end
                 else ∅) /\
         sd !! "trades" =
           Some (let total : gmap string string :=
                   if contains "Total Trades" page_text || contains "trades" (lower page_text)
                   then match fst (element_text (XPATH, "//*[contains(text(), 'Trades')]") w) with
                        | Ok v => {["total" := v]}
                        | Raise _ => ∅
                        end
                   else ∅ in
                 if contains "Win Rate" page_text || contains "Profitable" page_text
                 then match fst (element_text
                        (XPATH, "//*[contains(text(), 'Win') or contains(text(), 'Profitable')]")
                        w) with
                      | Ok v => <["win_rate" := v]> total
                      | Raise _ => total
                      end
                 else total)).
Proof.
  split_and!.
  - intros tabs Htabs. split_and!.
    + intros pre b tb post -> Hpre Hb Hc. unfold open_section, bind at 1, query. rewrite Htabs.
      rewrite click_first_tab_skip by done. simpl.
      unfold bind, query, element_click, Py.action, time_sleep. rewrite Hb, Hc.
      destruct (click b (sess w)) as [[[]|e] s']; [|done].
      cbn [sess has_driver trace]. by rewrite <- app_assoc.
    + by apply open_section_none.
    + intros Hpre. unfold get_performance_stats. cbn [try_block].
      unfold bind at 1. rewrite (open_section_none _ _ _ tabs) by done.
      unfold bind, element_text, ret, swallow.
      destruct (find_element (TAG_NAME, "body") (sess w)) as [el|e]; cbn [fst]; [|done].
      by destruct (text el (sess w)).
    + intros Hpre. unfold get_portfolio_data. cbn [try_block].
      unfold bind at 1. rewrite (open_section_none _ _ _ tabs) by done.
      unfold bind, query, ret, swallow. by destruct (page_source (sess w)).
    + intros Hpre. unfold get_trade_history. cbn [try_block].
      unfold bind at 1. rewrite (open_section_none _ _ _ tabs) by done.
      unfold bind, element_text, ret, swallow.
      destruct (find_element (TAG_NAME, "body") (sess w)) as [el|e]; [|done].
      by destruct (text el (sess w)).
  - intros e He. unfold Basic.scrape_portfolio, bind at 1, try_except, bind at 1, query.
    by rewrite He.
  - intros e He. unfold Basic.scrape_stats. cbn [try_block].
    unfold bind at 1, try_except, bind at 1, query. rewrite He. unfold ret at 1 2.
    unfold bind at 1.
    destruct (element_text (TAG_NAME, "body") w) as [[page_text|e'] w1] eqn:Eb.
    2: { unfold swallow, ret.
         assert (w1 = w) as -> by exact (element_text_world _ _ _ _ Eb).
         eexists. split; [done|]. by intros t [=]. }
    assert (w1 = w) as -> by exact (element_text_world _ _ _ _ Eb).
    unfold bind at 1. rewrite parse_if_eq. unfold bind at 1. rewrite parse_if_eq.
    rewrite parse_if_eq. eexists. split; [done|].
    intros t [= <-]. unfold Basic.set_nested.
    destruct (contains "Gain" page_text);
      destruct (contains "Total Trades" page_text || contains "trades" (lower page_text));
      destruct (contains "Win Rate" page_text || contains "Profitable" page_text);
      repeat match goal with
             | |- context [fst (element_text ?l w)] => destruct (fst (element_text l w))
             end;
      by simplify_map_eq.
Qed.

(** C9. Every trade that [get_open_trades] returns has the action [BUY]
    or [SELL] and a symbol of one to five capitals A-Z. *)
Theorem open_trades_shape (w w' : world S E) (trades : list trade) :
  get_open_trades w = (Ok trades, w') ->
  Forall (fun tr => trade_shape (action tr) (symbol tr)) trades.
Proof.
  rewrite get_open_trades_eq. intros [= <- _].
  destruct (fst (element_text (TAG_NAME, "body") w)) as [t|e]; [|constructor].
  pose proof (paired_shape _ _ (findall2_trades_paired t)) as Hsh.
  apply Forall_map. eapply Forall_impl; [exact Hsh|]. by intros [a sym].
Qed.

End Claims.

(** C4. [extract_number] strips the commas, finds the first signed
    decimal token of what is left and converts it; it returns [None]
    exactly when the text is [None] or empty or has no such token, that
    is, exactly when the text has no digit. The conversion to a float is
    the parameter [float]. *)
Theorem extract_number_first_token {F} (float : string -> F) (text : option string) :
  extract_number float text =
    match text with
    | None => None
    | Some t =>
        if nonempty t
        then option_map (fun tok => float (string_of_list_ascii tok))
               (first_signed_decimal (list_ascii_of_string (remove_commas t)))
        else None
    end /\
  (extract_number float text = None <->
   text = None \/
   exists t, text = Some t /\
     (t = "" \/ first_signed_decimal (list_ascii_of_string (remove_commas t)) = None)) /\
  (extract_number float text = None <-> forall t, text = Some t -> no_digit t).
Proof.
  destruct text as [t|].
  2: { split; [done|]. split; (split; [intros _|done]).
       - by left.
       - by intros t. }
  rewrite extract_number_eq. split; [done|].
  destruct t as [|c t].
  { cbn [nonempty]. split; (split; [intros _|done]).
    - right. exists "". by eauto.
    - intros t [= <-]. constructor. }
  cbn [nonempty].
  pose proof (first_signed_decimal_none
                (list_ascii_of_string (remove_commas (String c t)))) as Hnone.
  rewrite no_digit_remove_commas in Hnone.
  destruct (first_signed_decimal _) as [tok|] eqn:Ef; cbn [option_map].
  - split; (split; [done|]).
    + intros [|(t' & [= <-] & [|])]; [done|done|congruence].
    + intros Hall. specialize (Hall _ eq_refl). by apply Hnone in Hall.
  - split; (split; [intros _|done]).
    + right. eexists. by eauto.
    + intros t' [= <-]. by apply Hnone.
Qed.

(** C6 (amended). Extraction is idempotent on the values whose text is
    a plain signed decimal: when [extract_number] returns [v], the text
    [str v] of [v] is itself one signed decimal token (a sign, digits and
    a fraction, without an exponent) and converts back to [v], then
    [extract_number] of that text is [extract_number] of the input.
    Python's [float] and [str] are the parameters [float] and [str]. A
    value that round-trips through its text but is written with an
    exponent is not extracted from its text. *)
Theorem extract_number_idempotent {F} (float : string -> F) (str : F -> string)
    (x : option string) (v : F) :
  extract_number float x = Some v ->
  is_signed_decimal (str v) = true ->
  float (str v) = v ->
  extract_number float (Some (str v)) = extract_number float x.
Proof.
  intros Hx Htok Hrt. rewrite Hx, extract_number_token by done. by rewrite Hrt.
Qed.

(** * The claims on canned sessions *)

Import Stub Decimal.

(** ** Instances of the theorems *)

Lemma unmatched_field_by_backend_witness :
  let w := fresh (page [body "Risk Score 4"; ((TAG_NAME, "h1"), "Thomas")] "") in
  ("risk_score", risk_score_re) ∈ profile_patterns /\
  ("copiers", copiers_re) ∈ profile_patterns /\
  exists d, get_profile_info w = (Ok d, w) /\
    d !! "risk_score" = Some "4" /\ d !! "copiers" = None.
Proof.
  intros w.
  assert (Hr : ("risk_score", risk_score_re) ∈ profile_patterns)
    by (unfold profile_patterns; in_list).
  assert (Hc : ("copiers", copiers_re) ∈ profile_patterns)
    by (unfold profile_patterns; in_list).
  split; [done|]. split; [done|].
  destruct (unmatched_field_by_backend w) as (_ & (d & Hd & Hk) & _).
  exists d. split; [done|]. split.
  - rewrite (Hk "risk_score" risk_score_re Hr). by vm_compute.
  - rewrite (Hk "copiers" copiers_re Hc). by vm_compute.
Defined.

Lemma pipeline_faults_and_teardown_witness :
  let w := fresh profile_page in
  let fault : M state string (gmap string (gmap string string)) :=
    raise (Exn "WebDriverException" "Message: chrome not reachable") in
  exists r wf,
    Basic.scrape_investor_with Basic.scrape_profile fault Basic.scrape_portfolio
      Basic.scrape_trade_history "thomaspj" w = (Ok r, wf) /\
    Basic.error r = Some "Message: chrome not reachable" /\
    Basic.profile r !! "name" = Some "Thomas" /\
    Basic.portfolio r = [] /\
    quits (trace wf) = 1.
Proof.
  intros w fault.
  destruct (pipeline_faults_and_teardown (fun xs => xs) "thomaspj" w) as (Hgen & _ & _).
  set (w3 := snd ((start_driver ;; driver_get "https://www.etoro.com/people/thomaspj" ;;
                   time_sleep 5) w)).
  assert (Hpre : (start_driver ;; driver_get ("https://www.etoro.com/people/" +:+ "thomaspj") ;;
                  time_sleep 5) w = (Ok tt, w3)) by (by vm_compute).
  destruct (Hgen Basic.scrape_profile fault Basic.scrape_portfolio
              Basic.scrape_trade_history w3
              (safe_quiet _ BasicFacts.safe_scrape_profile)
              (quiet_raise _)
              (safe_quiet _ BasicFacts.safe_scrape_portfolio)
              (safe_quiet _ BasicFacts.safe_scrape_trade_history) Hpre)
    as (r & wb & Hrun & Hq & _ & Hcase).
  vm_compute in Hcase. destruct Hcase as [-> ->].
  eexists _, _. split; [rewrite Hrun; by vm_compute|].
  split_and!; by vm_compute.
Defined.

Lemma portfolio_is_a_bounded_set_witness :
  let src := "<b>$TSLA</b> and $AAPL, $TSLA again" in
  let w := fresh (page [button "Portfolio"] src) in
  let w1 := snd (open_section (E:=string) "portfolio" 3 w) in
  enumerates (encounter_order []) /\
  open_section "portfolio" 3 w = (Ok tt, w1) /\
  page_source (sess w1) = Ok src /\
  exists portfolio,
    get_portfolio_data (encounter_order []) w = (Ok portfolio, w1) /\
    NoDup portfolio /\ List.length portfolio <= 50 /\
    forall x, x ∈ findall1 instrument_re src -> x ∈ portfolio.
Proof.
  intros src w w1.
  assert (Hnav : open_section "portfolio" 3 w = (Ok tt, w1)) by (by vm_compute).
  assert (Hsrc : page_source (sess w1) = Ok src) by (by vm_compute).
  split; [apply enumerates_encounter_order|]. split; [done|]. split; [done|].
  destruct (portfolio_is_a_bounded_set (encounter_order []) w enumerates_encounter_order)
    as (p & w' & Hrun & Hnd & Hlen & Hsrc').
  destruct (Hsrc' w1 src Hnav Hsrc) as (-> & _ & Hall & _).
  exists p. split_and!; [done..|]. apply Hall.
  assert (Hn : List.length (encounter_order [] (findall1 instrument_re src)) = 2)
    by (by vm_compute).
  rewrite Hn. lia.
Defined.

Lemma extract_number_first_token_witness :
  extract_number of_token (Some "lost -1,234.5% in 2 days") =
    Some (Dec true (list_ascii_of_string "1234") (list_ascii_of_string "5")) /\
  no_digit "n/a" /\ extract_number of_token (Some "n/a") = None.
Proof.
  destruct (extract_number_first_token of_token (Some "lost -1,234.5% in 2 days"))
    as (Heq & _).
  destruct (extract_number_first_token of_token (Some "n/a")) as (_ & _ & Hnone).
  split; [by rewrite Heq; vm_compute|].
  assert (Hnd : no_digit "n/a") by (repeat constructor).
  split; [done|]. apply Hnone. by intros t [= <-].
Defined.

Lemma open_trades_pairs_witness :
  let w := fresh (page [body "BUY AAPL SELL TSLA"] "") in
  find_element (TAG_NAME, "body") (sess w) = Ok "BUY AAPL SELL TSLA" /\
  text "BUY AAPL SELL TSLA" (sess w) = Ok "BUY AAPL SELL TSLA" /\
  get_open_trades w = (Ok [Trade "BUY" "AAPL"; Trade "SELL" "TSLA"], w).
Proof.
  intros w.
  assert (Hel : find_element (TAG_NAME, "body") (sess w) = Ok "BUY AAPL SELL TSLA") by done.
  assert (Ht : text "BUY AAPL SELL TSLA" (sess w) = Ok "BUY AAPL SELL TSLA") by done.
  split; [done|]. split; [done|].
  destruct (open_trades_pairs w _ _ Hel Ht) as (trades & Hrun & _ & _ & Hex).
  by rewrite Hrun, (Hex eq_refl).
Defined.

Lemma extract_number_idempotent_witness :
  let x := Some "Gain: +1,234.50 USD" in
  let v := Dec false (list_ascii_of_string "1234") (list_ascii_of_string "5") in
  extract_number of_token x = Some v /\
  to_text v = "1234.5" /\
  is_signed_decimal (to_text v) = true /\
  of_token (to_text v) = v /\
  extract_number of_token (Some (to_text v)) = extract_number of_token x.
Proof.
  intros x v.
  assert (Hx : extract_number of_token x = Some v) by by vm_compute.
  assert (Htok : is_signed_decimal (to_text v) = true) by by vm_compute.
  assert (Hrt : of_token (to_text v) = v) by by vm_compute.
  split; [done|]. split; [by vm_compute|]. split; [done|]. split; [done|].
  exact (extract_number_idempotent of_token to_text x v Hx Htok Hrt).
Defined.

Lemma risk_score_rule_extracts_witness :
  let t := "Thomas, 1,234 Copiers. " +:+ "Risk Score 42" +:+ " of 10. Max Drawdown -12.5%" in
  let w := fresh (page [body t] "") in
  exists d, get_profile_info w = (Ok d, w) /\ d !! "risk_score" = Some "42".
Proof.
  intros t w.
  assert (Hel : find_element (TAG_NAME, "body") (sess w) = Ok t) by done.
  assert (Ht : text t (sess w) = Ok t) by done.
  apply (risk_score_rule_extracts w t "Thomas, 1,234 Copiers. " " of 10. Max Drawdown -12.5%"
           Hel Ht); by vm_compute.
Defined.

Lemma open_section_best_effort_witness :
  let w := fresh (page [button "Overview"; button "STATS"; button "Statistics";
                        body "Total Gain +5%"] "") in
  let gain := (XPATH, "//*[contains(text(), 'Gain')]/following-sibling::*") in
  let w2 := fresh (page [body "Gain 12% this year"; (gain, "12%")] "") in
  (find_elements (TAG_NAME, "button") (sess w) = Ok ["Overview"; "STATS"; "Statistics"] /\
   passed_over "stat" w ["Overview"] /\
   contains "stat" (lower "STATS") = true /\
   open_section "stat" 2 w =
     (Ok tt, World (sleep 2 (sess w)) false [EvClick "STATS"; EvSleep 2])) /\
  (find_element Basic.stats_tab_locator (sess w2) = Raise no_such_element /\
   exists sd, Basic.scrape_stats w2 = (Ok sd, w2) /\
     sd !! "performance" = Some {["gain" := "12%"]}).
Proof.
  intros w gain w2. split.
  - assert (Hp : passed_over "stat" w ["Overview"]).
    { repeat constructor. exists "Overview". by vm_compute. }
    assert (Ht : find_elements (TAG_NAME, "button") (sess w)
                 = Ok ["Overview"; "STATS"; "Statistics"]) by done.
    split_and!; [done|done|by vm_compute|].
    destruct (open_section_best_effort (fun l => l) "stat" 2 w) as (Hadv & _).
    destruct (Hadv _ Ht) as (Hclick & _).
    by rewrite (Hclick ["Overview"] "STATS" "STATS" ["Statistics"] eq_refl Hp eq_refl eq_refl).
  - assert (Hno : find_element Basic.stats_tab_locator (sess w2) = Raise no_such_element)
      by done.
    split; [done|].
    destruct (open_section_best_effort (fun l => l) "stat" 2 w2) as (_ & _ & Hstats).
    destruct (Hstats _ Hno) as (sd & Hrun & Hview).
    exists sd. split; [done|].
    destruct (Hview "Gain 12% this year" eq_refl) as [Hperf _].
    rewrite Hperf. by vm_compute.
Defined.

Lemma open_trades_shape_witness :
  let w := fresh (page [body "REBUY   APPLESAUCE, SELL T"] "") in
  get_open_trades w = (Ok [Trade "BUY" "APPLE"; Trade "SELL" "T"], w) /\
  Forall (fun tr => trade_shape (action tr) (symbol tr))
         [Trade "BUY" "APPLE"; Trade "SELL" "T"].
Proof.
  intros w.
  assert (Hrun : get_open_trades w = (Ok [Trade "BUY" "APPLE"; Trade "SELL" "T"], w))
    by by vm_compute.
  split; [done|]. exact (open_trades_shape w w _ Hrun).
Defined.

Lemma get_raw_data_bounded_witness :
  let w := fresh (page [body "Thomas, 1,234 Copiers"] "") in
  exists r, get_raw_data w = (Ok r, w) /\
    r !! "page_text" = Some "Thomas, 1,234 Copiers" /\ r !! "url" = Some "about:blank".
Proof.
  intros w. destruct (get_raw_data_bounded w) as (r & Hrun & Hcase).
  exists r. split; [done|].
  change (fst (element_text (TAG_NAME, "body") w)) with (Ok "Thomas, 1,234 Copiers") in Hcase.
  change (current_url (sess w)) with (Ok "about:blank") in Hcase.
  destruct Hcase as (-> & _). by vm_compute.
Defined.

(** ** Where the claims fail as they are worded *)

(** C1. The page has no risk score: [get_profile_info] returns a record
    without the key [risk_score], bound to no marker. *)
Lemma unmatched_rule_leaves_no_field :
  let w := fresh (page [body "Welcome to the profile page"] "") in
  search risk_score_re "Welcome to the profile page" = None /\
  exists d, get_profile_info w = (Ok d, w) /\ d !! "risk_score" = None /\
    ~ (exists marker, d !! "risk_score" = Some marker).
Proof.
  intros w. split; [by vm_compute|].
  eexists. split; [by vm_compute|]. split; [by vm_compute|].
  intros [marker Hm]. vm_compute in Hm. discriminate.
Qed.

(** C2. The browser is lost six seconds into the run, during the stats
    pass: both scrapers return a record, the later fields are empty or
    missing, and nothing in the record says that a fault occurred. *)
Lemma session_fault_leaves_no_error_field :
  let w := fresh (crashing 6 profile_page) in
  (exists r wf,
     Basic.scrape_investor "thomaspj" w = (Ok r, wf) /\
     fst (element_text (TAG_NAME, "body") wf) = Raise lost /\
     Basic.profile r !! "name" = Some "Thomas" /\
     Basic.portfolio r = [] /\ Basic.trade_history r = [] /\
     Basic.error r = None) /\
  (exists r wf,
     scrape_investor_complete (fun xs => xs) None "thomaspj" w = (Ok r, wf) /\
     fst (element_text (TAG_NAME, "body") wf) = Raise lost /\
     profile_info r !! "risk_score" = Some "4" /\
     portfolio r = [] /\ raw_page_data r = ∅).
Proof.
  intros w. split.
  - eexists _, _. split; [by vm_compute|]. split_and!; by vm_compute.
  - eexists _, _. split; [by vm_compute|]. split_and!; by vm_compute.
Qed.

(** C3. With 51 distinct instruments and a set listed in the reverse of
    the order of encounter, the 51st instrument is kept and the first is
    dropped. *)
Lemma later_instrument_kept_earlier_dropped :
  let w := fresh (page [] fifty_one) in
  let list_of_set := fun xs => reverse (encounter_order [] xs) in
  enumerates list_of_set /\
  encounter_order [] (findall1 instrument_re fifty_one) !! 0 = Some "A" /\
  encounter_order [] (findall1 instrument_re fifty_one) !! 50 = Some "AY" /\
  exists portfolio,
    get_portfolio_data list_of_set w = (Ok portfolio, w) /\
    List.length portfolio = 50 /\ "AY" ∈ portfolio /\ "A" ∉ portfolio.
Proof.
  intros w list_of_set. split; [apply enumerates_reverse_encounter_order|].
  split; [by vm_compute|]. split; [by vm_compute|].
  eexists. split; [by vm_compute|]. split; [by vm_compute|].
  split; by_compute.
Qed.

(** C8. No button matches the label: the pass still extracts from the
    page as it stands, and the extraction is not empty. *)
Lemma unmatched_section_not_empty :
  let w := fresh (page [button "Overview"; body "Total Gain +5%"] "") in
  passed_over "stat" w ["Overview"] /\
  exists d, get_performance_stats w = (Ok d, w) /\ d !! "total_gain" = Some "+5%" /\ d <> ∅.
Proof.
  intros w. split.
  - repeat constructor. exists "Overview". by vm_compute.
  - eexists. split; [by vm_compute|]. split; [by vm_compute|].
    intros Hd. apply (f_equal (fun d : gmap string string => d !! "total_gain")) in Hd.
    vm_compute in Hd. discriminate.
Qed.

(** C6. The number 0.00001 round-trips through its text, and [str]
    writes it with an exponent, ["1e-05"]; of that text [extract_number]
    reads the 1 before the exponent. *)
Lemma exponent_text_breaks_idempotence :
  let x := Some "0.00001" in
  let v := Dec false [] (list_ascii_of_string "00001") in
  extract_number of_token x = Some v /\
  to_text v = "1e-05" /\
  of_token (to_text v) = v /\
  extract_number of_token (Some (to_text v)) = Some (of_token "1") /\
  extract_number of_token (Some (to_text v)) <> extract_number of_token x.
Proof.
  intros x v. split_and!; by vm_compute.
Qed.
